(** * add_copyright.py: a shallow embedding and its verification

    The script walks project directories and prepends a header comment to
    the source files that do not carry one yet.  This file embeds the
    script's functions ([has_copyright], [add_copyright_to_file],
    [process_directory], [main]) together with the part of the Python
    runtime they rely on (text strings, [str.format], [os.path], text-mode
    files, [os.walk]) and proves the properties of the specification.

    Conventions.
    - A Python [str] is a list of Unicode code points ([N]); slices and
      indices count code points.  A [str] can hold surrogates: a file name
      that is not valid UTF-8 reaches the script with them.
    - The file system maps a path to a file.  What is stored in a file
      whose bytes follow the layout of UTF-8 is identified with the sequence
      of code points that the bytes spell (the layout is injective, so equal
      code points mean equal bytes).  The codec of [encoding='utf-8'] is
      strict: reading refuses bytes that spell a surrogate, writing refuses
      a text that holds one.  Text-mode reading applies universal newlines;
      text-mode writing is that of a POSIX system, where [os.linesep] is LF.
    - Whether a file can be opened for reading and for writing, and whether
      a write to it comes to its end, is an attribute of the file
      ([f_read_error], [write_mode]) and does not change during a run.
    - Directory listings are given per root directory as a tree of names;
      the script never creates, renames or removes an entry.
    - [print] succeeds on every line: standard output is taken to reject
      nothing.  The module [StrictStdout] gives the file processor and the
      walker on a standard output with the strict encoder, where [print]
      raises on a line that holds a surrogate.
    - Effects are threaded through a state-and-exception monad [M] over a
      [world]: files, directory listings, standard output and a log of the
      [open] calls. *)

From Stdlib Require Import DecimalString.
From stdpp Require Import gmap list strings.

Local Open Scope N_scope.
Local Open Scope nat_scope.
Local Open Scope list_scope.

(** ** Python strings *)

Module PyStr.

(** A Python [str]: a sequence of code points. *)
Abbreviation str := (list N).

(** Decoding of a literal of this file, which is UTF-8 like the script. *)
Fixpoint utf8_decode (bs : list N) : str :=
  match bs with
  | [] => []
  | b :: r =>
      if (b <? 128)%N then b :: utf8_decode r
      else if (b <? 224)%N then
        match r with
        | c1 :: r' => ((b mod 32) * 64 + c1 mod 64)%N :: utf8_decode r'
        | _ => []
        end
      else if (b <? 240)%N then
        match r with
        | c1 :: c2 :: r' =>
            ((b mod 16) * 4096 + (c1 mod 64) * 64 + c2 mod 64)%N :: utf8_decode r'
        | _ => []
        end
      else
        match r with
        | c1 :: c2 :: c3 :: r' =>
            ((b mod 8) * 262144 + (c1 mod 64) * 4096 + (c2 mod 64) * 64 + c3 mod 64)%N
              :: utf8_decode r'
        | _ => []
        end
  end.

Definition lit (s : string) : str :=
  utf8_decode (map Ascii.N_of_ascii (String.list_ascii_of_string s)).

Definition LF : N := 10%N.
Definition CR : N := 13%N.
Definition SLASH : N := 47%N.
Definition LBRACE : N := 123%N.
Definition RBRACE : N := 125%N.

(** [s.startswith(prefix)] *)
Fixpoint startswith (s prefix : str) {struct prefix} : bool :=
  match prefix, s with
  | [], _ => true
  | _ :: _, [] => false
  | a :: prefix', b :: s' => (a =? b)%N && startswith s' prefix'
  end.

(** [s.endswith(suffix)] *)
Definition endswith (s suffix : str) : bool :=
  startswith (rev s) (rev suffix).

(** [sub in s]: [sub] occurs in [s] as a contiguous substring. *)
Fixpoint str_in (sub s : str) : bool :=
  startswith s sub ||
  match s with
  | [] => false
  | _ :: t => str_in sub t
  end.

(** [x in l] for a list of strings. *)
Definition list_in (x : str) (l : list str) : bool :=
  existsb (fun y => bool_decide (x = y)) l.

(** [str(n)] for a non-negative integer. *)
Definition str_of_nat (n : nat) : str :=
  lit (NilEmpty.string_of_uint (Nat.to_uint n)).

End PyStr.
Export PyStr.

(** ** Exceptions and [str.format] *)

(** The exceptions (all subclasses of [Exception]) that the modelled runtime
    raises, each with the text that [str(e)] gives. *)
Inductive exn :=
  | OSError (msg : str)
  | UnicodeDecodeError (msg : str)
  | UnicodeEncodeError (msg : str)
  | ValueError (msg : str)
  | KeyError (key : str).

Definition exn_str (e : exn) : str :=
  match e with
  | OSError msg => msg
  | UnicodeDecodeError msg => msg
  | UnicodeEncodeError msg => msg
  | ValueError msg => msg
  | KeyError key => lit "'" ++ key ++ lit "'"
  end.

Inductive outcome (A : Type) :=
  | Returns (a : A)
  | Raises (e : exn).
Arguments Returns {A} a.
Arguments Raises {A} e.

Module Format.

(** Keyword arguments of a [format] call. *)
Definition kwargs := list (str * str).

Fixpoint kw_get (k : str) (kw : kwargs) : option str :=
  match kw with
  | [] => None
  | (k', v) :: kw' => if bool_decide (k = k') then Some v else kw_get k kw'
  end.

(** [template.format] with keyword arguments [kw], for templates whose
    replacement fields are plain names.  Only the template is parsed: [{{]
    and [}}] are escapes, [{name}] is replaced by the value of [name], and
    the inserted value is never scanned again.  [field] is [Some acc] while
    the characters of a field name are being read. *)
Fixpoint format_from (field : option str) (template : str) (kw : kwargs) : outcome str :=
  match field, template with
  | None, [] => Returns []
  | Some _, [] => Raises (ValueError (lit "expected '}' before end of string"))
  | None, c :: rest =>
      if (c =? LBRACE)%N then
        match rest with
        | c' :: rest' =>
            if (c' =? LBRACE)%N then
              match format_from None rest' kw with
              | Returns r => Returns (LBRACE :: r)
              | Raises e => Raises e
              end
            else format_from (Some []) rest kw
        | [] => Raises (ValueError (lit "Single '{' encountered in format string"))
        end
      else if (c =? RBRACE)%N then
        match rest with
        | c' :: rest' =>
            if (c' =? RBRACE)%N then
              match format_from None rest' kw with
              | Returns r => Returns (RBRACE :: r)
              | Raises e => Raises e
              end
            else Raises (ValueError (lit "Single '}' encountered in format string"))
        | [] => Raises (ValueError (lit "Single '}' encountered in format string"))
        end
      else
        match format_from None rest kw with
        | Returns r => Returns (c :: r)
        | Raises e => Raises e
        end
  | Some acc, c :: rest =>
      if (c =? RBRACE)%N then
        match kw_get acc kw with
        | Some v =>
            match format_from None rest kw with
            | Returns r => Returns (v ++ r)
            | Raises e => Raises e
            end
        | None => Raises (KeyError acc)
        end
      else format_from (Some (acc ++ [c])) rest kw
  end.

Definition format (template : str) (kw : kwargs) : outcome str :=
  format_from None template kw.

End Format.
Export Format.

(** ** The script's constants *)

Definition TS_COPYRIGHT : str := lit
"/**
 * @file {filename}
 * @description {description}
 * @author Tomda
 * @copyright 版权所有 (c) 2026 UIED技术团队
 * @website https://fsuied.com
 * @license MIT
 * @version 1.0.0
 */

".

Definition CSS_COPYRIGHT : str := lit
"/**
 * @file {filename}
 * @description {description}
 * @author Tomda
 * @copyright 版权所有 (c) 2026 UIED技术团队
 * @website https://fsuied.com
 * @license MIT
 * @version 1.0.0
 */

".

Definition DESCRIPTIONS : list (str * str) :=
  [ (lit "admin", lit "管理后台组件");
    (lit "frontend", lit "前端用户界面组件");
    (lit "backend", lit "后端API服务") ].

(** ** The header detector *)

Definition has_copyright (content : str) : bool :=
  str_in (lit "@file") (take 500 content) || str_in (lit "@copyright") (take 500 content).

(** The two keyword arguments of both [format] calls of the script. *)
Definition header_kwargs (filename description : str) : kwargs :=
  [ (lit "filename", filename); (lit "description", description) ].


(** ** [os.path] (POSIX flavour) *)

Module OsPath.

(** [p.rfind('/') + 1] *)
Fixpoint rfind_sep_succ (p : str) : nat :=
  match p with
  | [] => 0
  | c :: t =>
      match rfind_sep_succ t with
      | S i => S (S i)
      | O => if (c =? SLASH)%N then 1 else 0
      end
  end.

(** [os.path.basename(p)]: [i = p.rfind('/') + 1; return p[i:]] *)
Definition basename (p : str) : str := drop (rfind_sep_succ p) p.

(** [os.path.join(a, b)] *)
Definition join (a b : str) : str :=
  if startswith b [SLASH] then b
  else if bool_decide (a = []) || endswith a [SLASH] then a ++ b
  else a ++ [SLASH] ++ b.

End OsPath.
Export OsPath.

(** ** The strict UTF-8 codec

    [encoding='utf-8'] with the default error handler refuses the surrogate
    code points U+D800..U+DFFF, which a [str] can hold (a file name that is
    not valid UTF-8 reaches the script with such code points in it), and
    refuses bytes that spell one. *)

Definition is_surrogate (c : N) : bool := (55296 <=? c)%N && (c <=? 57343)%N.

Definition encodable (s : str) : bool := forallb (fun c => negb (is_surrogate c)) s.

(** The index of the first surrogate of [s], and the length of the run of
    surrogates that [s] starts with. *)
Fixpoint first_surrogate (s : str) : nat :=
  match s with
  | [] => 0
  | c :: t => if is_surrogate c then 0 else S (first_surrogate t)
  end.

Fixpoint surrogate_run (s : str) : nat :=
  match s with
  | [] => 0
  | c :: t => if is_surrogate c then S (surrogate_run t) else 0
  end.

Definition hex_digit (n : N) : N := if (n <? 10)%N then (48 + n)%N else (87 + n)%N.

(** [%04x] of a code point below 65536 *)
Definition hex4 (c : N) : str :=
  [hex_digit (c / 4096 mod 16); hex_digit (c / 256 mod 16);
   hex_digit (c / 16 mod 16); hex_digit (c mod 16)]%N.

(** The [UnicodeEncodeError] that encoding [text] raises, with the text of
    [str(e)]: the encoder reports the first run of surrogates. *)
Definition utf8_encode_error (text : str) : exn :=
  let start := first_surrogate text in
  let bad := drop start text in
  let stop := start + surrogate_run bad in
  UnicodeEncodeError
    (match bad with
     | c :: _ =>
         if stop =? start + 1 then
           lit "'utf-8' codec can't encode character '\u" ++ hex4 c
           ++ lit "' in position " ++ str_of_nat start ++ lit ": surrogates not allowed"
         else
           lit "'utf-8' codec can't encode characters in position " ++ str_of_nat start
           ++ lit "-" ++ str_of_nat (stop - 1) ++ lit ": surrogates not allowed"
     | [] => []
     end).

(** The number of bytes that spell a code point. *)
Definition utf8_width (c : N) : nat :=
  if (c <? 128)%N then 1 else if (c <? 2048)%N then 2 else if (c <? 65536)%N then 3 else 4.

(** The text of the [UnicodeDecodeError] for bytes that spell [chars], the
    first surrogate of which starts with the byte 0xed. *)
Definition utf8_decode_error (chars : str) : str :=
  lit "'utf-8' codec can't decode byte 0xed in position "
  ++ str_of_nat (list_sum (map utf8_width (take (first_surrogate chars) chars)))
  ++ lit ": invalid continuation byte".

(** ** Files, directories and the world *)

(** What a file holds: bytes in the layout of UTF-8, given by the code
    points they spell, or bytes that do not follow it (decoding them raises,
    with [msg]). *)
Inductive payload :=
  | Utf8Text (chars : str)
  | NotUtf8 (msg : str).

(** How opening a file for writing behaves: it works; [open] itself raises
    (the file is not touched); or [open] has truncated the file and the
    write of the encoded text then raises, leaving only the first [kept]
    characters of the new text (device full, I/O error). *)
Inductive write_mode :=
  | Writable
  | WriteDenied (msg : str)
  | WriteFails (kept : nat) (msg : str).

Record file := mkFile {
  f_stored : payload;
  f_read_error : option str;   (* [Some msg]: [open(path, 'r')] raises *)
  f_write : write_mode
}.

(** What the strict decoder makes of the file: bytes that spell a surrogate
    are not UTF-8 either. *)
Definition f_payload (f : file) : payload :=
  match f_stored f with
  | Utf8Text chars =>
      if encodable chars then Utf8Text chars else NotUtf8 (utf8_decode_error chars)
  | NotUtf8 msg => NotUtf8 msg
  end.

(** A directory as [os.walk] lists it: the names of its files and its
    subdirectories. *)
Unset Elimination Schemes.
Inductive dirtree :=
  | Dir (files : list str) (subdirs : list (str * dirtree)).
Set Elimination Schemes.

Inductive io_event :=
  | OpenRead (path : str)
  | OpenWrite (path : str).

Definition io_path (ev : io_event) : str :=
  match ev with OpenRead p => p | OpenWrite p => p end.

Record world := mkWorld {
  w_fs : gmap (list N) file;
  w_dirs : gmap (list N) dirtree;
  w_stdout : list str;
  w_io : list io_event
}.

Definition set_fs (fs : gmap (list N) file) (w : world) : world :=
  mkWorld fs (w_dirs w) (w_stdout w) (w_io w).

Definition log_io (ev : io_event) (w : world) : world :=
  mkWorld (w_fs w) (w_dirs w) (w_stdout w) (w_io w ++ [ev]).

Definition set_payload (f : file) (chars : str) : file :=
  mkFile (Utf8Text chars) (f_read_error f) (f_write f).

(** ** The monad of the script: state and exceptions *)

Definition M (A : Type) : Type := world -> outcome A * world.

Definition ret {A} (a : A) : M A := fun w => (Returns a, w).

Definition raise {A} (e : exn) : M A := fun w => (Raises e, w).

Definition bind {A B} (c : M A) (k : A -> M B) : M B := fun w =>
  match c w with
  | (Returns a, w') => k a w'
  | (Raises e, w') => (Raises e, w')
  end.

(** [try: body  except Exception as e: handler(e)] *)
Definition try_except {A} (body : M A) (handler : exn -> M A) : M A := fun w =>
  match body w with
  | (Returns a, w') => (Returns a, w')
  | (Raises e, w') => handler e w'
  end.

Definition lift {A} (o : outcome A) : M A := fun w => (o, w).

Declare Scope py_scope.
Delimit Scope py_scope with py.
Notation "'let!' x ':=' c 'in' k" := (bind c (fun x => k))
  (at level 10, x name, c at level 100, k at level 200) : py_scope.
Notation "c '>>' k" := (bind c (fun _ => k))
  (at level 100, k at level 200, right associativity) : py_scope.
Local Open Scope py_scope.

Definition put_line (line : str) (w : world) : world :=
  mkWorld (w_fs w) (w_dirs w) (w_stdout w ++ [line]) (w_io w).

(** [print(line)], on a standard output that rejects nothing *)
Definition print (line : str) : M unit := fun w => (Returns tt, put_line line w).

(** Universal newlines, the default of a text-mode [open(.., 'r')]: the
    line endings CR LF and CR are read as LF. *)
Fixpoint universal_newlines (s : str) : str :=
  match s with
  | [] => []
  | c :: t =>
      if (c =? CR)%N then
        LF :: match t with
              | c' :: t' => if (c' =? LF)%N then universal_newlines t' else universal_newlines t
              | [] => []
              end
      else c :: universal_newlines t
  end.

(** [str(e)] of the [FileNotFoundError] for [path]; the path is shown as
    [repr] shows a string of printable characters without quote or
    backslash. *)
Definition no_such_file (path : str) : str :=
  lit "[Errno 2] No such file or directory: '" ++ path ++ lit "'".

(** [with open(path, 'r', encoding='utf-8') as f: return f.read()] *)
Definition open_read (path : str) : M str := fun w =>
  let w := log_io (OpenRead path) w in
  match w_fs w !! path with
  | None => (Raises (OSError (no_such_file path)), w)
  | Some f =>
      match f_read_error f with
      | Some msg => (Raises (OSError msg), w)
      | None =>
          match f_payload f with
          | Utf8Text chars => (Returns (universal_newlines chars), w)
          | NotUtf8 msg => (Raises (UnicodeDecodeError msg), w)
          end
      end
  end.

(** [with open(path, 'w', encoding='utf-8') as f: f.write(text)], on a
    system whose [os.linesep] is LF: the characters are stored as they are.
    Opening a missing file for writing creates it.  [open] truncates the
    file; [f.write] then encodes the whole text before it stores anything,
    so a text that the strict encoder refuses leaves the file empty. *)
Definition open_write (path : str) (text : str) : M unit := fun w =>
  let w := log_io (OpenWrite path) w in
  match w_fs w !! path with
  | None =>
      if encodable text then
        (Returns tt, set_fs (<[path := mkFile (Utf8Text text) None Writable]> (w_fs w)) w)
      else
        (Raises (utf8_encode_error text),
         set_fs (<[path := mkFile (Utf8Text []) None Writable]> (w_fs w)) w)
  | Some f =>
      match f_write f with
      | WriteDenied msg => (Raises (OSError msg), w)
      | Writable =>
          if encodable text then
            (Returns tt, set_fs (<[path := set_payload f text]> (w_fs w)) w)
          else
            (Raises (utf8_encode_error text), set_fs (<[path := set_payload f []]> (w_fs w)) w)
      | WriteFails kept msg =>
          if encodable text then
            (Raises (OSError msg), set_fs (<[path := set_payload f (take kept text)]> (w_fs w)) w)
          else
            (Raises (utf8_encode_error text), set_fs (<[path := set_payload f []]> (w_fs w)) w)
      end
  end.

(** [os.path.exists(path)] *)
Definition path_exists (path : str) (w : world) : bool :=
  bool_decide (is_Some (w_dirs w !! path)) || bool_decide (is_Some (w_fs w !! path)).

(** ** The file processor *)

(** Lines 60-64: the header text for [filepath]. *)
Definition render_copyright (filepath description : str) : outcome str :=
  let filename := basename filepath in
  if endswith filepath (lit ".css")
  then format CSS_COPYRIGHT (header_kwargs filename description)
  else format TS_COPYRIGHT (header_kwargs filename description).

(** The three progress lines (f-strings) of the file processor. *)
Definition skipped_line (filepath : str) : str :=
  lit "⏭️  跳过 " ++ filepath ++ lit " (已有版权注释)".

Definition added_line (filepath : str) : str :=
  lit "✅ 已添加版权注释: " ++ filepath.

Definition failed_line (filepath : str) (e : exn) : str :=
  lit "❌ 处理失败 " ++ filepath ++ lit ": " ++ exn_str e.

(** The [try] block of [add_copyright_to_file]. *)
Definition add_copyright_body (filepath description : str) : M bool :=
  let! content := open_read filepath in
  if has_copyright content then
    print (skipped_line filepath) >>
    ret false
  else
    let! copyright := lift (render_copyright filepath description) in
    let new_content := copyright ++ content in
    open_write filepath new_content >>
    print (added_line filepath) >>
    ret true.

Definition add_copyright_to_file (filepath description : str) : M bool :=
  try_except
    (add_copyright_body filepath description)
    (fun e =>
       print (failed_line filepath e) >>
       ret false).

(** ** The directory walker *)

(** [os.walk(top)], top-down, as consumed by a loop that prunes [dirs] in
    place to the names satisfying [keep]: the pairs [(root, files)] in the
    order in which the loop receives them. *)
Fixpoint os_walk (keep : str -> bool) (top : str) (t : dirtree) : list (str * list str) :=
  match t with
  | Dir files subdirs =>
      (top, files) ::
      concat (map (fun entry =>
                     match entry with
                     | (d, sub) => if keep d then os_walk keep (join top d) sub else []
                     end) subdirs)
  end.

(** A [for] loop that threads the local variables [s] through its body. *)
Fixpoint for_each {A S} (l : list A) (body : A -> S -> M S) (s : S) : M S :=
  match l with
  | [] => ret s
  | x :: l' => let! s' := body x s in for_each l' body s'
  end.

Definition EXCLUDED : list str :=
  [lit "node_modules"; lit "dist"; lit "build"; lit ".git"].

(** [d not in ['node_modules', 'dist', 'build', '.git']] *)
Definition not_excluded (d : str) : bool := negb (list_in d EXCLUDED).

(** [any(file.endswith(ext) for ext in extensions)] *)
Definition accepted (extensions : list str) (file : str) : bool :=
  existsb (fun ext => endswith file ext) extensions.

(** What [os.walk(directory)] yields in world [w]; nothing when there is no
    such directory. *)
Definition walk_of (w : world) (directory : str) : list (str * list str) :=
  match w_dirs w !! directory with
  | Some t => os_walk not_excluded directory t
  | None => []
  end.

Definition process_directory (directory description : str) (extensions : list str) : M nat :=
  fun w =>
    for_each (walk_of w directory)
      (fun '(root, files) count =>
         for_each files
           (fun file count =>
              if accepted extensions file then
                let filepath := join root file in
                let! added := add_copyright_to_file filepath description in
                if added then ret (count + 1) else ret count
              else ret count)
           count)
      0 w.

(** ** The entry point *)

(** [DESCRIPTIONS[group]], for the three keys that [main] uses. *)
Definition description_of (group : string) : str :=
  default [] (kw_get (lit group) DESCRIPTIONS).

(** One [if os.path.exists(..)] block of [main]; returns the new
    [total_count]. *)
Definition main_group (directory : str) (label : string) (extensions : list str)
    (total_count : nat) : M nat :=
  fun w =>
    if path_exists directory w then
      (print (lit "📁 处理 " ++ lit label ++ lit " 目录...") >>
       let! count := process_directory directory (description_of label) extensions in
       print (lit "   完成 " ++ str_of_nat count ++ lit " 个文件" ++ [LF]) >>
       ret (total_count + count)) w
    else ret total_count w.

(** The body of [main] up to the final [print]; returns [total_count]. *)
Definition main_groups : M nat :=
  print (lit "🚀 开始为代码文件添加版权注释..." ++ [LF]) >>
  let total_count := 0 in
  let! total_count :=
    main_group (lit "admin/src") "admin" [lit ".tsx"; lit ".ts"; lit ".css"] total_count in
  let! total_count :=
    main_group (lit "frontend/src") "frontend" [lit ".tsx"; lit ".ts"; lit ".css"] total_count in
  let! total_count :=
    main_group (lit "backend/src") "backend" [lit ".js"; lit ".ts"] total_count in
  ret total_count.

Definition main : M unit :=
  let! total_count := main_groups in
  print (lit "✨ 完成！共为 " ++ str_of_nat total_count ++ lit " 个文件添加了版权注释").

(** ** The script on a strict standard output

    The functions above take [print] to succeed on every line, as it does
    when the error handler of [sys.stdout] rejects nothing (the C locale, or
    [PYTHONIOENCODING] with [surrogateescape] or [backslashreplace]).  In a
    UTF-8 locale [sys.stdout] uses the strict encoder, and [print] raises on
    a line that holds a surrogate without writing any of it.  This module
    gives the file processor and the walker over such an output; the text of
    the functions is the same. *)
Module StrictStdout.

Definition print (line : str) : M unit := fun w =>
  if encodable line then (Returns tt, put_line line w)
  else (Raises (utf8_encode_error line), w).

Definition add_copyright_body (filepath description : str) : M bool :=
  let! content := open_read filepath in
  if has_copyright content then
    print (skipped_line filepath) >>
    ret false
  else
    let! copyright := lift (render_copyright filepath description) in
    let new_content := copyright ++ content in
    open_write filepath new_content >>
    print (added_line filepath) >>
    ret true.

Definition add_copyright_to_file (filepath description : str) : M bool :=
  try_except
    (add_copyright_body filepath description)
    (fun e =>
       print (failed_line filepath e) >>
       ret false).

Definition process_directory (directory description : str) (extensions : list str) : M nat :=
  fun w =>
    for_each (walk_of w directory)
      (fun '(root, files) count =>
         for_each files
           (fun file count =>
              if accepted extensions file then
                let filepath := join root file in
                let! added := add_copyright_to_file filepath description in
                if added then ret (count + 1) else ret count
              else ret count)
           count)
      0 w.

End StrictStdout.

(** ** Notions used to state the properties *)

(** The two tags that [has_copyright] looks for. *)
Definition MARKERS : list str := [lit "@file"; lit "@copyright"].

(** [sub] occurs in [s] at index [i]. *)
Definition occurs_at (sub s : str) (i : nat) : Prop :=
  exists l1 l2, s = l1 ++ sub ++ l2 /\ length l1 = i.

(** The header block for a file name and a description: the template with
    both fields filled in. *)
Definition render_header (filename description : str) : str :=
  lit "/**
 * @file " ++ filename ++ lit "
 * @description " ++ description ++ lit "
 * @author Tomda
 * @copyright 版权所有 (c) 2026 UIED技术团队
 * @website https://fsuied.com
 * @license MIT
 * @version 1.0.0
 */

".

(** What one call of [add_copyright_to_file] comes to, as a function of
    the file found at the path. *)
Inductive verdict :=
  | VReadError (e : exn)                (* the read raised *)
  | VSkip                               (* a header is already there *)
  | VAdded (f' : file)                  (* the header was written *)
  | VOpenError (e : exn)                (* opening for writing raised *)
  | VWriteError (e : exn) (f' : file).  (* encoding or writing raised after truncation *)

(** The result of reading the file found at a path. *)
Definition read_result (path : str) (fo : option file) : outcome str :=
  match fo with
  | None => Raises (OSError (no_such_file path))
  | Some f =>
      match f_read_error f with
      | Some msg => Raises (OSError msg)
      | None =>
          match f_payload f with
          | Utf8Text chars => Returns (universal_newlines chars)
          | NotUtf8 msg => Raises (UnicodeDecodeError msg)
          end
      end
  end.

(** How a file that has been read successfully answers an attempt to write
    [text] to it. *)
Definition write_verdict (fo : option file) (text : str) : verdict :=
  match fo with
  | None =>
      if encodable text then VAdded (mkFile (Utf8Text text) None Writable)
      else VWriteError (utf8_encode_error text) (mkFile (Utf8Text []) None Writable)
  | Some f =>
      match f_write f with
      | WriteDenied msg => VOpenError (OSError msg)
      | Writable =>
          if encodable text then VAdded (set_payload f text)
          else VWriteError (utf8_encode_error text) (set_payload f [])
      | WriteFails kept msg =>
          if encodable text then VWriteError (OSError msg) (set_payload f (take kept text))
          else VWriteError (utf8_encode_error text) (set_payload f [])
      end
  end.

Definition verdict_of (filepath description : str) (fo : option file) : verdict :=
  match read_result filepath fo with
  | Raises e => VReadError e
  | Returns content =>
      if has_copyright content then VSkip
      else write_verdict fo (render_header (basename filepath) description ++ content)
  end.

Definition verdict_bool (v : verdict) : bool :=
  match v with VAdded _ => true | _ => false end.

Definition verdict_fs (filepath : str) (v : verdict) (fs : gmap (list N) file)
    : gmap (list N) file :=
  match v with
  | VAdded f' | VWriteError _ f' => <[filepath := f']> fs
  | _ => fs
  end.

Definition verdict_io (filepath : str) (v : verdict) : list io_event :=
  match v with
  | VReadError _ | VSkip => [OpenRead filepath]
  | _ => [OpenRead filepath; OpenWrite filepath]
  end.

Definition verdict_line (filepath : str) (v : verdict) : str :=
  match v with
  | VSkip => skipped_line filepath
  | VAdded _ => added_line filepath
  | VReadError e | VOpenError e | VWriteError e _ => failed_line filepath e
  end.

(** The world after a call with verdict [v]. *)
Definition verdict_world (filepath : str) (v : verdict) (w : world) : world :=
  mkWorld (verdict_fs filepath v (w_fs w)) (w_dirs w)
          (w_stdout w ++ [verdict_line filepath v])
          (w_io w ++ verdict_io filepath v).

(** The paths on which a walk calls the file processor, in order. *)
Definition candidates_of (extensions : list str) (walk : list (str * list str)) : list str :=
  flat_map (fun '(root, files) => map (join root) (List.filter (accepted extensions) files))
           walk.

Definition candidates (w : world) (directory : str) (extensions : list str) : list str :=
  candidates_of extensions (walk_of w directory).

(** The file processor called on each path of a list in turn, counting the
    calls that return [True]. *)
Definition run_files (paths : list str) (description : str) (count : nat) : M nat :=
  for_each paths
    (fun filepath count =>
       let! added := add_copyright_to_file filepath description in
       if added then ret (count + 1) else ret count)
    count.


(** The verdicts of successive calls on a list of paths, and the world they
    leave. *)
Fixpoint verdicts (paths : list str) (description : str) (w : world) : list verdict * world :=
  match paths with
  | [] => ([], w)
  | p :: ps =>
      let v := verdict_of p description (w_fs w !! p) in
      let '(vs, w') := verdicts ps description (verdict_world p v w) in
      (v :: vs, w')
  end.

Definition count_added (vs : list verdict) : nat :=
  length (List.filter verdict_bool vs).

(** The lines that report an added header start with the check mark. *)
Definition is_added_line (line : str) : bool :=
  bool_decide (head line = Some 9989%N).

Definition is_open_read (ev : io_event) : bool :=
  match ev with OpenRead _ => true | OpenWrite _ => false end.

(** The file that a call leaves at its path, given the file found there. *)
Definition new_file (filepath description : str) (fo : option file) : option file :=
  match verdict_of filepath description fo with
  | VAdded f' | VWriteError _ f' => Some f'
  | _ => fo
  end.

(** A file on which a call for this path and this description has nothing
    left to do: no header is added and the file stays as it is. *)
Definition inert (filepath description : str) (fo : option file) : Prop :=
  verdict_bool (verdict_of filepath description fo) = false /\
  new_file filepath description fo = fo.

(** The three directory groups of [main]: directory, name in
    [DESCRIPTIONS], accepted extensions. *)
Definition MAIN_GROUPS : list (str * string * list str) :=
  [ (lit "admin/src", "admin"%string, [lit ".tsx"; lit ".ts"; lit ".css"]);
    (lit "frontend/src", "frontend"%string, [lit ".tsx"; lit ".ts"; lit ".css"]);
    (lit "backend/src", "backend"%string, [lit ".js"; lit ".ts"]) ].

(** A name as a file system gives it to a directory entry: not empty and
    without a slash. *)
Definition valid_name (n : str) : bool :=
  negb (bool_decide (n = [])) && negb (existsb (N.eqb SLASH) n).

(** All the names in a tree are valid. *)
Fixpoint wf_tree (t : dirtree) : bool :=
  match t with
  | Dir files subdirs =>
      forallb valid_name files &&
      forallb (fun entry =>
                 match entry with
                 | (d, sub) => valid_name d && wf_tree sub
                 end) subdirs
  end.

(** The path that [os.walk] builds from [top] by joining names one after
    the other. *)
Fixpoint path_of (top : str) (names : list str) : str :=
  match names with
  | [] => top
  | n :: ns => path_of (join top n) ns
  end.

(** [top] as a prefix of the paths below it. *)
Definition dir_prefix (top : str) : str :=
  if bool_decide (top = []) || endswith top [SLASH] then top else top ++ [SLASH].

(** [n/ns1/ns2/...] *)
Fixpoint joined (n : str) (ns : list str) : str :=
  match ns with
  | [] => n
  | m :: r => n ++ [SLASH] ++ joined m r
  end.

(** [located t ds files]: going down from the root of [t] through the
    subdirectories named [ds], one reaches a directory that lists [files]. *)
Inductive located : dirtree -> list str -> list str -> Prop :=
  | located_here files subdirs :
      located (Dir files subdirs) [] files
  | located_sub files subdirs d sub ds fs :
      (d, sub) ∈ subdirs -> located sub ds fs ->
      located (Dir files subdirs) (d :: ds) fs.



(** Two states of a path that differ at most in the text stored: both
    missing, or both present with the same read and write behaviour, and
    undecodable bytes left as they are. *)
Definition same_kind (fo fo' : option file) : Prop :=
  match fo, fo' with
  | None, None => True
  | Some f, Some f' =>
      f_read_error f' = f_read_error f /\ f_write f' = f_write f /\
      (forall msg, f_payload f = NotUtf8 msg -> f' = f)
  | _, _ => False
  end.

(** The first and the last line that [main] prints. *)
Definition START_LINE : str := lit "🚀 开始为代码文件添加版权注释..." ++ [LF].

Definition total_line (total_count : nat) : str :=
  lit "✨ 完成！共为 " ++ str_of_nat total_count ++ lit " 个文件添加了版权注释".

(** No directory of the tree lists a file name twice or a subdirectory name
    twice. *)
Fixpoint unique_names (t : dirtree) : bool :=
  match t with
  | Dir files subdirs =>
      bool_decide (NoDup files) && bool_decide (NoDup (map fst subdirs)) &&
      forallb (fun entry =>
                 match entry with
                 | (d, sub) => unique_names sub
                 end) subdirs
  end.

(** The walk with each directory given by the names that lead to it from
    the root, instead of by its path. *)
Fixpoint rel_walk (keep : str -> bool) (t : dirtree) : list (list str * list str) :=
  match t with
  | Dir files subdirs =>
      ([], files) ::
      concat (map (fun entry =>
                     match entry with
                     | (d, sub) =>
                         if keep d
                         then map (fun x => (d :: x.1, x.2)) (rel_walk keep sub)
                         else []
                     end) subdirs)
  end.

(** The candidates of a walk, each as the list of names that leads to it. *)
Definition rel_candidates (extensions : list str) (rw : list (list str * list str))
    : list (list str) :=
  flat_map (fun x => map (fun file => x.1 ++ [file]) (List.filter (accepted extensions) x.2))
           rw.

(** ** A sample project tree *)

Definition text_file (content : str) : file := mkFile (Utf8Text content) None Writable.

Definition sample_tree : dirtree :=
  Dir [lit "locked.ts"; lit "widget.tsx"; lit "styles.css"; lit "crlf.ts";
       lit "a{b}.ts"; lit "notes.md"; lit "full.ts"; lit "binary.ts"]
      [(lit "node_modules", Dir [lit "dep.ts"] []);
       (lit "ui", Dir [lit "button.tsx"] [(lit "dist", Dir [lit "out.ts"] [])])].

Definition sample_fs : gmap (list N) file :=
  list_to_map
    [ (lit "admin/src/locked.ts",
       mkFile (Utf8Text (lit "let y = 2;"))
              (Some (lit "[Errno 13] Permission denied: 'admin/src/locked.ts'")) Writable);
      (lit "admin/src/widget.tsx", text_file (lit "export const x = 1;"));
      (lit "admin/src/styles.css", text_file (lit "/* @copyright me */ body {}"));
      (lit "admin/src/crlf.ts", text_file [120; 13; 10; 121]%N);
      (lit "admin/src/a{b}.ts", text_file (lit "x"));
      (lit "admin/src/notes.md", text_file (lit "notes"));
      (lit "admin/src/full.ts",
       mkFile (Utf8Text (lit "let z = 3;")) None
              (WriteFails 0 (lit "[Errno 28] No space left on device")));
      (lit "admin/src/binary.ts",
       mkFile
         (NotUtf8 (lit "'utf-8' codec can't decode byte 0xff in position 0: invalid start byte"))
         None Writable);
      (lit "admin/src/node_modules/dep.ts", text_file (lit "module.exports = 1;"));
      (lit "admin/src/ui/button.tsx", text_file (lit "export const b = 2;"));
      (lit "admin/src/ui/dist/out.ts", text_file (lit "var b = 2;")) ].

Definition sample_world : world :=
  mkWorld sample_fs {[ lit "admin/src" := sample_tree ]} [] [].

(** A directory that lists a file whose name is not valid UTF-8 (the byte
    0xff, which [os.walk] hands over as U+DCFF) before an ordinary file. *)
Definition odd_name : str := [56575%N] ++ lit ".ts".

Definition odd_world : world :=
  mkWorld
    (list_to_map
       [ (lit "admin/src/" ++ odd_name, text_file (lit "x"));
         (lit "admin/src/next.ts", text_file (lit "let n = 0;")) ])
    {[ lit "admin/src" := Dir [odd_name; lit "next.ts"] [] ]} [] [].

(** * Checks on concrete inputs *)

Example utf8_decode_han : lit "版权" = [29256%N; 26435%N].
Proof. reflexivity. Qed.

Example utf8_decode_emoji : lit "📁" = [128193%N].
Proof. reflexivity. Qed.

Example str_of_nat_12 : str_of_nat 12 = lit "12".
Proof. reflexivity. Qed.

Example format_escapes :
  format (lit "a{{b}}{x}") [(lit "x", lit "{y}")] = Returns (lit "a{b}{y}").
Proof. reflexivity. Qed.

Example format_single_brace :
  format (lit "a}b") [] = Raises (ValueError (lit "Single '}' encountered in format string")).
Proof. reflexivity. Qed.

Example has_copyright_short : has_copyright (lit "/* @copyright x */") = true.
Proof. vm_compute. reflexivity. Qed.

(** The window is the first 500 characters: a tag that ends at index 500 is
    seen, a tag that starts one character later is not. *)
Example has_copyright_at_495 : has_copyright (replicate 495 32%N ++ lit "@file") = true.
Proof. vm_compute. reflexivity. Qed.

Example has_copyright_at_496 : has_copyright (replicate 496 32%N ++ lit "@file") = false.
Proof. vm_compute. reflexivity. Qed.

Example has_copyright_at_500 : has_copyright (replicate 500 32%N ++ lit "@copyright") = false.
Proof. vm_compute. reflexivity. Qed.

Example basename_nested : basename (lit "admin/src/ui/button.tsx") = lit "button.tsx".
Proof. vm_compute. reflexivity. Qed.

Example join_plain : join (lit "admin/src") (lit "ui") = lit "admin/src/ui".
Proof. vm_compute. reflexivity. Qed.

Example universal_newlines_mixed :
  universal_newlines [97; 13; 10; 98; 13; 99; 10]%N = [97; 10; 98; 10; 99; 10]%N.
Proof. vm_compute. reflexivity. Qed.

Example encode_error_one_surrogate :
  utf8_encode_error (lit "ab" ++ [56575%N] ++ lit "c")
  = UnicodeEncodeError
      (lit "'utf-8' codec can't encode character '\udcff' in position 2: surrogates not allowed").
Proof. vm_compute. reflexivity. Qed.

Example encode_error_run_of_surrogates :
  utf8_encode_error (lit "é" ++ [55357%N; 56832%N] ++ lit "c")
  = UnicodeEncodeError
      (lit "'utf-8' codec can't encode characters in position 1-2: surrogates not allowed").
Proof. vm_compute. reflexivity. Qed.

(** Bytes that spell a surrogate are refused by the decoder. *)
Example surrogate_bytes_do_not_decode :
  f_payload (text_file (lit "é" ++ [55296%N]))
  = NotUtf8 (lit "'utf-8' codec can't decode byte 0xed in position 2: invalid continuation byte") /\
  f_payload (text_file (lit "é")) = Utf8Text (lit "é").
Proof. split; vm_compute; reflexivity. Qed.

(** * Strings: [startswith], [in] and the detector's window *)

Lemma startswith_prefix (s p : str) :
  startswith s p = true <-> exists t, s = p ++ t.
Proof.
  revert s. induction p as [|a p IH]; intros s; simpl.
  - split; [intros _; by exists s | done].
  - destruct s as [|b s].
    + split; [done | intros [t Ht]; discriminate].
    + rewrite andb_true_iff, N.eqb_eq, IH. split.
      * intros [-> [t ->]]. by exists t.
      * intros [t Ht]. injection Ht as -> ->. eauto.
Qed.

Lemma str_in_infix (sub s : str) :
  str_in sub s = true <-> exists l1 l2, s = l1 ++ sub ++ l2.
Proof.
  induction s as [|a s IH]; simpl; rewrite orb_true_iff, startswith_prefix.
  - split.
    + intros [[t Ht] | ?]; [|done]. exists [], t. done.
    + intros (l1 & l2 & H). left. symmetry in H.
      apply app_eq_nil in H as [-> H]. apply app_eq_nil in H as [-> ->].
      by exists [].
  - rewrite IH. split.
    + intros [[t Ht] | (l1 & l2 & Ht)].
      * exists [], t. done.
      * exists (a :: l1), l2. by rewrite Ht.
    + intros (l1 & l2 & H). destruct l1 as [|b l1]; simpl in H.
      * left. eauto.
      * right. injection H as -> ->. eauto.
Qed.

(** [sub in s[:n]]: an occurrence that ends within the first [n] characters. *)
Lemma str_in_take (sub s : str) (n : nat) :
  str_in sub (take n s) = true <->
  exists i, occurs_at sub s i /\ i + length sub <= n.
Proof.
  rewrite str_in_infix. split.
  - intros (l1 & l2 & H). exists (length l1). split.
    + exists l1, (l2 ++ drop n s). split; [|done].
      rewrite <- (take_drop n s) at 1. rewrite H. by rewrite <- !app_assoc.
    + assert (Hl : length (take n s) <= n) by (rewrite length_take; lia).
      rewrite H, !length_app in Hl. lia.
  - intros (i & (l1 & l2 & -> & <-) & Hle).
    exists l1, (take (n - (length l1 + length sub)) l2).
    rewrite app_assoc, take_app_ge by (rewrite length_app; lia).
    rewrite length_app. by rewrite <- app_assoc.
Qed.

Lemma has_copyright_iff (content : str) :
  has_copyright content = true <->
  exists m i, m ∈ MARKERS /\ occurs_at m content i /\ i + length m <= 500.
Proof.
  unfold has_copyright, MARKERS. rewrite orb_true_iff, !str_in_take. split.
  - intros [(i & H1 & H2) | (i & H1 & H2)].
    + exists (lit "@file"), i. split; [apply list_elem_of_here | done].
    + exists (lit "@copyright"), i.
      split; [apply list_elem_of_further, list_elem_of_here | done].
  - intros (m & i & Hm & H1 & H2).
    apply elem_of_cons in Hm as [-> | Hm]; [left; eauto |].
    apply elem_of_cons in Hm as [-> | Hm]; [right; eauto |].
    by apply not_elem_of_nil in Hm.
Qed.

Lemma has_copyright_prefix (s t : str) :
  has_copyright s = true -> has_copyright (s ++ t) = true.
Proof.
  rewrite !has_copyright_iff. intros (m & i & Hm & (l1 & l2 & -> & Hi) & Hle).
  exists m, i. repeat split; [done | | done].
  exists l1, (l2 ++ t). by rewrite <- !app_assoc.
Qed.

(** * The header renderer *)

Lemma format_ts_header (filename description : str) :
  format TS_COPYRIGHT (header_kwargs filename description)
  = Returns (render_header filename description).
Proof. vm_compute. reflexivity. Qed.

Lemma format_css_header (filename description : str) :
  format CSS_COPYRIGHT (header_kwargs filename description)
  = Returns (render_header filename description).
Proof. vm_compute. reflexivity. Qed.

Lemma render_copyright_header (filepath description : str) :
  render_copyright filepath description
  = Returns (render_header (basename filepath) description).
Proof.
  unfold render_copyright.
  destruct (endswith filepath (lit ".css")); [apply format_css_header | apply format_ts_header].
Qed.

Lemma render_header_marker (filename description : str) :
  occurs_at (lit "@file") (render_header filename description) 7.
Proof.
  exists (lit "/**
 * "), (lit " " ++ filename ++ drop 13 (render_header [] description)).
  split; [vm_compute; reflexivity | reflexivity].
Qed.

Lemma has_copyright_render_header (filename description content : str) :
  has_copyright (render_header filename description ++ content) = true.
Proof.
  apply has_copyright_prefix, has_copyright_iff.
  exists (lit "@file"), 7. split; [apply list_elem_of_here|].
  split; [apply render_header_marker | vm_compute; lia].
Qed.

Lemma has_copyright_reread_header (filename description content : str) :
  has_copyright (universal_newlines (render_header filename description ++ content)) = true.
Proof. vm_compute. reflexivity. Qed.

(** C8. The style-sheet template and the generic template render to the
    same string for every file name and description (indeed for every set of
    keyword arguments), so the header that [add_copyright_to_file] builds
    does not depend on whether the path ends in [.css]. *)
Theorem css_template_same_as_generic (filepath filename description : str) (kw : kwargs) :
  format CSS_COPYRIGHT (header_kwargs filename description)
  = format TS_COPYRIGHT (header_kwargs filename description)
  /\ format CSS_COPYRIGHT kw = format TS_COPYRIGHT kw
  /\ render_copyright filepath description
     = format TS_COPYRIGHT (header_kwargs (basename filepath) description)
  /\ render_copyright filepath description
     = format CSS_COPYRIGHT (header_kwargs (basename filepath) description).
Proof.
  assert (Heq : CSS_COPYRIGHT = TS_COPYRIGHT) by (vm_compute; reflexivity).
  unfold render_copyright. rewrite Heq.
  repeat split; destruct (endswith filepath (lit ".css")); reflexivity.
Qed.

(** C9. For every file name and description the rendered header carries the
    tag [@file] at index 7, within the first 500 characters; so the detector
    answers true on the header, on the header followed by any content, and
    on that text as read back from the file. *)
Theorem rendered_header_is_detected (filename description : str) :
  exists header,
    format TS_COPYRIGHT (header_kwargs filename description) = Returns header /\
    format CSS_COPYRIGHT (header_kwargs filename description) = Returns header /\
    occurs_at (lit "@file") header 7 /\
    has_copyright header = true /\
    forall content,
      has_copyright (header ++ content) = true /\
      has_copyright (universal_newlines (header ++ content)) = true.
Proof.
  exists (render_header filename description).
  split; [apply format_ts_header|]. split; [apply format_css_header|].
  split; [apply render_header_marker|]. split.
  - rewrite <- (app_nil_r (render_header _ _)). apply has_copyright_render_header.
  - intros content. split;
      [apply has_copyright_render_header | apply has_copyright_reread_header].
Qed.

(** C4. [has_copyright] answers true exactly when one of its two tags,
    [@file] or [@copyright], occurs entirely within the first 500
    characters of the content; when every occurrence of a tag starts at
    index 500 or later the answer is false; and there is an answer for every
    string. *)
Theorem has_copyright_window (content : str) :
  (has_copyright content = true <->
   exists m i, m ∈ MARKERS /\ occurs_at m content i /\ i + length m <= 500)
  /\ ((forall m i, m ∈ MARKERS -> occurs_at m content i -> 500 <= i) ->
      has_copyright content = false)
  /\ (exists b : bool, has_copyright content = b).
Proof.
  split; [apply has_copyright_iff|]. split; [|by eexists].
  intros Hlate. apply not_true_is_false. rewrite has_copyright_iff.
  intros (m & i & Hm & Hocc & Hle). specialize (Hlate m i Hm Hocc).
  assert (Hlen : 5 <= length m).
  { unfold MARKERS in Hm.
    apply elem_of_cons in Hm as [-> | Hm]; [vm_compute; lia|].
    apply elem_of_cons in Hm as [-> | Hm]; [vm_compute; lia|].
    by apply not_elem_of_nil in Hm. }
  lia.
Qed.

(** * The strict codec *)

Lemma not_elem_of_existsb (c : N) (l : str) : existsb (N.eqb c) l = false -> c ∉ l.
Proof.
  intros H Hin. apply not_true_iff_false in H. apply H, existsb_exists.
  exists c. split; [by apply list_elem_of_In | apply N.eqb_refl].
Qed.

Lemma encodable_app (a b : str) : encodable (a ++ b) = encodable a && encodable b.
Proof. apply forallb_app. Qed.

Lemma encodable_take (n : nat) (s : str) : encodable s = true -> encodable (take n s) = true.
Proof.
  revert n. induction s as [|c t IH]; intros [|n] H; try done.
  cbn [take encodable forallb] in *. apply andb_true_iff in H as [Hc Ht].
  rewrite Hc. by apply IH.
Qed.

Lemma encodable_universal_newlines (s : str) :
  encodable s = true -> encodable (universal_newlines s) = true.
Proof.
  remember (length s) as n eqn:Hn. revert s Hn.
  induction n as [n IH] using lt_wf_ind. intros s -> H.
  destruct s as [|c t]; [done|].
  cbn [encodable forallb] in H. apply andb_true_iff in H as [Hc Ht].
  cbn [universal_newlines]. destruct (c =? CR)%N.
  - destruct t as [|c' t']; [done|].
    cbn [encodable forallb] in Ht. apply andb_true_iff in Ht as [Hc' Ht'].
    destruct (c' =? LF)%N; cbn [encodable forallb].
    + apply (IH (length t')); [cbn [length]; lia | done | done].
    + apply (IH (length (c' :: t'))); [cbn [length]; lia | done |].
      cbn [encodable forallb]. by rewrite Hc'.
  - cbn [encodable forallb]. rewrite Hc.
    apply (IH (length t)); [cbn [length]; lia | done | done].
Qed.

Lemma encodable_render_header (fn d : str) :
  encodable (render_header fn d) = encodable fn && encodable d.
Proof.
  unfold render_header. rewrite !encodable_app.
  assert (H1 : encodable (lit "/**
 * @file ") = true) by (vm_compute; reflexivity).
  assert (H2 : encodable (lit "
 * @description ") = true) by (vm_compute; reflexivity).
  rewrite H1, H2. cbn [andb].
  destruct (encodable fn); [|done]. destruct (encodable d); [|done].
  vm_compute. reflexivity.
Qed.

Lemma f_payload_text (f : file) (raw : str) :
  f_payload f = Utf8Text raw -> f_stored f = Utf8Text raw /\ encodable raw = true.
Proof.
  unfold f_payload. destruct (f_stored f) as [chars|msg]; [|done].
  destruct (encodable chars) eqn:He; [|done]. by intros [= <-].
Qed.

Lemma f_payload_set_payload (f : file) (text : str) :
  encodable text = true -> f_payload (set_payload f text) = Utf8Text text.
Proof. intros He. unfold f_payload, set_payload. cbn [f_stored]. by rewrite He. Qed.

(** * The file processor, case by case *)

Lemma open_read_result (path : str) (w : world) :
  open_read path w = (read_result path (w_fs w !! path), log_io (OpenRead path) w).
Proof.
  unfold open_read, read_result. cbn [w_fs log_io].
  destruct (w_fs w !! path) as [f|]; [|reflexivity].
  destruct (f_read_error f); [reflexivity|]. by destruct (f_payload f).
Qed.

Lemma add_copyright_to_file_verdict (filepath description : str) (w : world) :
  let v := verdict_of filepath description (w_fs w !! filepath) in
  add_copyright_to_file filepath description w
  = (Returns (verdict_bool v), verdict_world filepath v w).
Proof.
  unfold add_copyright_to_file, add_copyright_body, try_except, bind, verdict_of, write_verdict.
  rewrite open_read_result.
  destruct (w_fs w !! filepath) as [f|] eqn:Hf; [|reflexivity].
  destruct (read_result filepath (Some f)) as [content|e]; [|reflexivity].
  destruct (has_copyright content); [reflexivity|].
  unfold lift. rewrite render_copyright_header.
  unfold open_write. cbn [w_fs log_io]. rewrite Hf.
  destruct (f_write f); try destruct (encodable _);
    unfold print, ret, put_line, set_fs, log_io, verdict_world;
    cbn [w_fs w_dirs w_stdout w_io verdict_bool verdict_fs verdict_io verdict_line];
    rewrite <- app_assoc; reflexivity.
Qed.





(** A call that returns [True] has found a readable file without a tag and
    has put the header in front of its text. *)
Lemma add_copyright_true_inv (filepath description : str) (w w' : world) :
  add_copyright_to_file filepath description w = (Returns true, w') ->
  exists f raw,
    w_fs w !! filepath = Some f /\
    f_read_error f = None /\
    f_payload f = Utf8Text raw /\
    f_write f = Writable /\
    has_copyright (universal_newlines raw) = false /\
    encodable (render_header (basename filepath) description ++ universal_newlines raw)
      = true /\
    w' = verdict_world filepath
           (VAdded (set_payload f (render_header (basename filepath) description
                                   ++ universal_newlines raw))) w.
Proof.
  rewrite add_copyright_to_file_verdict. intros [= Hb <-].
  unfold verdict_of, write_verdict, read_result in *.
  destruct (w_fs w !! filepath) as [f|]; [|done].
  destruct (f_read_error f) eqn:Hr; [done|].
  destruct (f_payload f) as [raw|] eqn:Hp; [|done].
  destruct (has_copyright (universal_newlines raw)) eqn:Hm; [done|].
  destruct (f_write f) eqn:Hw; [|done|].
  - destruct (encodable _) eqn:He; [|done]. by exists f, raw.
  - by destruct (encodable _).
Qed.

(** * Universal newlines *)

Lemma universal_newlines_no_cr (s : str) :
  CR ∉ s -> universal_newlines s = s.
Proof.
  induction s as [|c t IH]; [done|]. intros Hnot.
  apply not_elem_of_cons in Hnot as [Hc Ht]. cbn [universal_newlines].
  destruct (N.eqb_spec c CR) as [->|_]; [done|]. by rewrite IH.
Qed.

Lemma universal_newlines_no_cr_app (m s : str) :
  CR ∉ m -> universal_newlines (m ++ s) = m ++ universal_newlines s.
Proof.
  induction m as [|c t IH]; [done|]. intros Hnot.
  apply not_elem_of_cons in Hnot as [Hc Ht].
  rewrite <- !app_comm_cons. cbn [universal_newlines].
  destruct (N.eqb_spec c CR) as [->|_]; [done|]. by rewrite IH.
Qed.



(** * The file processor: headers are prepended, marked files are skipped *)

(** C1 (as amended). For a file whose content, as read in text mode, lacks
    both tags in its first 500 characters, a successful run of
    [add_copyright_to_file], that is one whose [try] block ends without an
    exception, returns [True] and leaves in the file the rendered header
    (base name and description filled in) followed immediately by the
    content as read, in which each line ending CR LF or CR has become LF;
    every other file is left alone.  When the stored content has no carriage
    return, the content as read is the stored content, unchanged character
    for character. *)
Theorem add_copyright_prepends_header
    (filepath description : str) (w w' : world) (f : file) (raw : str) (b : bool) :
  w_fs w !! filepath = Some f ->
  f_payload f = Utf8Text raw ->
  has_copyright (universal_newlines raw) = false ->
  add_copyright_body filepath description w = (Returns b, w') ->
  b = true /\
  add_copyright_to_file filepath description w = (Returns true, w') /\
  render_copyright filepath description
    = Returns (render_header (basename filepath) description) /\
  w_fs w' !! filepath
    = Some (set_payload f (render_header (basename filepath) description
                           ++ universal_newlines raw)) /\
  f_payload <$> w_fs w' !! filepath
    = Some (Utf8Text (render_header (basename filepath) description
                      ++ universal_newlines raw)) /\
  (forall q, q <> filepath -> w_fs w' !! q = w_fs w !! q) /\
  (CR ∉ raw ->
   f_payload <$> w_fs w' !! filepath
     = Some (Utf8Text (render_header (basename filepath) description ++ raw))).
Proof.
  intros Hf Hp Hm Hbody.
  assert (Hcall : add_copyright_to_file filepath description w = (Returns b, w')).
  { unfold add_copyright_to_file, try_except. by rewrite Hbody. }
  unfold add_copyright_body, bind in Hbody.
  rewrite open_read_result, Hf in Hbody. unfold read_result in Hbody.
  destruct (f_read_error f) eqn:Hr; [done|]. rewrite Hp, Hm in Hbody.
  unfold lift in Hbody. rewrite render_copyright_header in Hbody.
  unfold open_write in Hbody. cbn [w_fs log_io] in Hbody. rewrite Hf in Hbody.
  destruct (f_write f) eqn:Hw; [|done|by destruct (encodable _)].
  destruct (encodable _) eqn:He; [|done].
  unfold print, ret in Hbody. injection Hbody as <- <-.
  split; [done|]. split; [done|]. split; [apply render_copyright_header|].
  cbn [put_line set_fs log_io w_fs].
  split; [by rewrite lookup_insert_eq|].
  split; [by rewrite lookup_insert_eq; cbn [fmap option_fmap option_map];
          rewrite f_payload_set_payload|].
  split; [intros q Hq; by rewrite lookup_insert_ne|].
  intros Hcr. rewrite lookup_insert_eq. cbn [fmap option_fmap option_map].
  rewrite f_payload_set_payload by done. by rewrite universal_newlines_no_cr.
Qed.



Lemma add_copyright_prepends_header_witness :
  add_copyright_to_file (lit "admin/src/widget.tsx") (lit "管理后台组件") sample_world
    = (Returns true,
       snd (add_copyright_body (lit "admin/src/widget.tsx") (lit "管理后台组件") sample_world)) /\
  f_payload <$>
    w_fs (snd (add_copyright_body (lit "admin/src/widget.tsx") (lit "管理后台组件") sample_world))
      !! lit "admin/src/widget.tsx"
    = Some (Utf8Text (render_header (basename (lit "admin/src/widget.tsx")) (lit "管理后台组件")
                      ++ lit "export const x = 1;")).
Proof.
  destruct (add_copyright_prepends_header
              (lit "admin/src/widget.tsx") (lit "管理后台组件") sample_world
              (snd (add_copyright_body (lit "admin/src/widget.tsx") (lit "管理后台组件")
                      sample_world))
              (text_file (lit "export const x = 1;")) (lit "export const x = 1;") true)
    as (_ & Hrun & _ & _ & _ & _ & Hnew); [vm_compute; reflexivity ..|].
  split; [exact Hrun|]. apply Hnew.
  apply not_elem_of_existsb. vm_compute. reflexivity.
Defined.

(** C1, as stated, fails on a file with CR LF line endings: the file lacks
    both tags, the call returns [True], and what follows the header is the
    text with LF line endings, not the stored content. *)
Lemma crlf_content_not_preserved :
  w_fs sample_world !! lit "admin/src/crlf.ts" = Some (text_file [120; 13; 10; 121]%N) /\
  has_copyright [120; 13; 10; 121]%N = false /\
  exists w',
    add_copyright_to_file (lit "admin/src/crlf.ts") (lit "d") sample_world
      = (Returns true, w') /\
    w_fs w' !! lit "admin/src/crlf.ts"
      = Some (text_file (render_header (lit "crlf.ts") (lit "d") ++ [120; 10; 121]%N)) /\
    w_fs w' !! lit "admin/src/crlf.ts"
      <> Some (text_file (render_header (lit "crlf.ts") (lit "d") ++ [120; 13; 10; 121]%N)).
Proof.
  split; [vm_compute; reflexivity|]. split; [vm_compute; reflexivity|].
  exists (snd (add_copyright_to_file (lit "admin/src/crlf.ts") (lit "d") sample_world)).
  split; [vm_compute; reflexivity|]. split; [vm_compute; reflexivity|].
  vm_compute. discriminate.
Qed.




(** Once the file has been opened for writing nothing is guaranteed: when
    the write fails, the call returns [False] and the old content is gone. *)
Example write_failure_truncates :
  exists w',
    add_copyright_to_file (lit "admin/src/full.ts") (lit "d") sample_world
      = (Returns false, w') /\
    f_payload <$> w_fs sample_world !! lit "admin/src/full.ts"
      = Some (Utf8Text (lit "let z = 3;")) /\
    f_payload <$> w_fs w' !! lit "admin/src/full.ts" = Some (Utf8Text []).
Proof.
  exists (snd (add_copyright_to_file (lit "admin/src/full.ts") (lit "d") sample_world)).
  do 2 (split; [vm_compute; reflexivity|]). vm_compute. reflexivity.
Qed.

(** * The directory walker as a run over its candidates *)

Lemma for_each_app {A S} (l1 l2 : list A) (body : A -> S -> M S) (s : S) (w : world) :
  for_each (l1 ++ l2) body s w = bind (for_each l1 body s) (for_each l2 body) w.
Proof.
  revert s w. induction l1 as [|x l1 IH]; intros s w; [done|].
  cbn [app for_each]. unfold bind.
  destruct (body x s w) as [[s'|e] w']; [|done].
  rewrite IH. reflexivity.
Qed.

Lemma bind_ext {A B} (c1 c2 : M A) (k1 k2 : A -> M B) (w : world) :
  (forall w', c1 w' = c2 w') -> (forall a w', k1 a w' = k2 a w') ->
  bind c1 k1 w = bind c2 k2 w.
Proof.
  intros Hc Hk. unfold bind. rewrite Hc.
  destruct (c2 w) as [[a|e] w']; [apply Hk | done].
Qed.

Lemma process_files_run (root description : str) (extensions files : list str)
    (count : nat) (w : world) :
  for_each files
    (fun file count =>
       if accepted extensions file then
         let filepath := join root file in
         let! added := add_copyright_to_file filepath description in
         if added then ret (count + 1) else ret count
       else ret count) count w
  = run_files (map (join root) (List.filter (accepted extensions) files)) description count w.
Proof.
  revert count w. induction files as [|file files IH]; intros count w; [done|].
  cbn [for_each List.filter]. destruct (accepted extensions file).
  - cbn [map]. unfold run_files. cbn [for_each].
    apply bind_ext; [done | intros a w'; apply IH].
  - unfold bind, ret. apply IH.
Qed.

Lemma process_walk_run (description : str) (extensions : list str)
    (walk : list (str * list str)) (count : nat) (w : world) :
  for_each walk
    (fun '(root, files) count =>
       for_each files
         (fun file count =>
            if accepted extensions file then
              let filepath := join root file in
              let! added := add_copyright_to_file filepath description in
              if added then ret (count + 1) else ret count
            else ret count)
         count)
    count w
  = run_files (candidates_of extensions walk) description count w.
Proof.
  revert count w.
  induction walk as [|[root files] walk IH]; intros count w; [done|].
  cbn [for_each candidates_of flat_map]. unfold run_files.
  rewrite for_each_app.
  apply bind_ext; [intros w'; apply process_files_run | intros a w'; apply IH].
Qed.

Lemma process_directory_run (directory description : str) (extensions : list str) (w : world) :
  process_directory directory description extensions w
  = run_files (candidates w directory extensions) description 0 w.
Proof. unfold process_directory, candidates. apply process_walk_run. Qed.

Lemma run_files_cons (p : str) (ps : list str) (description : str) (count : nat) (w : world) :
  run_files (p :: ps) description count w
  = run_files ps description
      (if verdict_bool (verdict_of p description (w_fs w !! p)) then count + 1 else count)
      (verdict_world p (verdict_of p description (w_fs w !! p)) w).
Proof.
  unfold run_files. cbn [for_each]. unfold bind.
  rewrite add_copyright_to_file_verdict.
  by destruct (verdict_bool _).
Qed.

Lemma run_files_verdicts (paths : list str) (description : str) (count : nat) (w : world) :
  run_files paths description count w
  = (Returns (count + count_added (verdicts paths description w).1),
     (verdicts paths description w).2).
Proof.
  revert count w. induction paths as [|p ps IH]; intros count w.
  - unfold run_files, count_added. cbn. by rewrite Nat.add_0_r.
  - rewrite run_files_cons, IH. cbn [verdicts].
    destruct (verdicts ps description _) as [vs w'].
    cbn [fst snd]. unfold count_added. cbn [List.filter].
    destruct (verdict_bool _); cbn [length]; do 2 f_equal; lia.
Qed.

(** * What a run over a list of paths does to the world *)

Lemma verdicts_frame (paths : list str) (description : str) (w : world) :
  w_dirs (verdicts paths description w).2 = w_dirs w /\
  (forall q, q ∉ paths -> w_fs (verdicts paths description w).2 !! q = w_fs w !! q) /\
  length (verdicts paths description w).1 = length paths /\
  (exists evs,
     w_io (verdicts paths description w).2 = w_io w ++ evs /\
     List.filter is_open_read evs = map OpenRead paths /\
     forall ev, ev ∈ evs -> io_path ev ∈ paths) /\
  (exists lines,
     w_stdout (verdicts paths description w).2 = w_stdout w ++ lines /\
     length lines = length paths).
Proof.
  revert w. induction paths as [|p ps IH]; intros w.
  - cbn [verdicts fst snd]. do 3 (split; [done|]). split.
    + exists []. split; [by rewrite app_nil_r|]. split; [done|].
      intros ev Hev. by apply not_elem_of_nil in Hev.
    + exists []. by rewrite app_nil_r.
  - cbn [verdicts].
    set (v := verdict_of p description (w_fs w !! p)).
    specialize (IH (verdict_world p v w)).
    destruct (verdicts ps description (verdict_world p v w)) as [vs w'].
    cbn [fst snd] in *.
    destruct IH as (Hdirs & Hfs & Hlen & (evs & Hio & Hreads & Hpaths) & (lines & Hout & Hlines)).
    split; [done|]. split.
    { intros q Hq. apply not_elem_of_cons in Hq as [Hqp Hq].
      rewrite Hfs by done. cbn [verdict_world w_fs]. unfold verdict_fs.
      destruct v; by rewrite ?lookup_insert_ne. }
    split; [cbn [length]; by rewrite Hlen|]. split.
    + exists (verdict_io p v ++ evs). split.
      { rewrite Hio. cbn [verdict_world w_io]. by rewrite app_assoc. }
      split.
      { rewrite List.filter_app, Hreads. by destruct v. }
      intros ev Hev. apply elem_of_app in Hev as [Hev|Hev].
      * assert (io_path ev = p) as ->; [|apply list_elem_of_here].
        destruct v; cbn [verdict_io] in Hev;
          repeat (apply elem_of_cons in Hev as [->|Hev]; [done|]);
          by apply not_elem_of_nil in Hev.
      * apply list_elem_of_further. by apply Hpaths.
    + exists (verdict_line p v :: lines). split.
      { rewrite Hout. cbn [verdict_world w_stdout]. by rewrite <- app_assoc. }
      cbn [length]. by rewrite Hlines.
Qed.

Lemma is_added_line_verdict (p : str) (v : verdict) :
  is_added_line (verdict_line p v) = verdict_bool v.
Proof. destruct v; vm_compute; reflexivity. Qed.

(** One line is printed per call, and the lines that report an added header
    are as many as the calls that added one. *)
Lemma verdicts_stdout (paths : list str) (description : str) (w : world) :
  exists lines,
    w_stdout (verdicts paths description w).2 = w_stdout w ++ lines /\
    length lines = length paths /\
    length (List.filter is_added_line lines) = count_added (verdicts paths description w).1.
Proof.
  revert w. induction paths as [|p ps IH]; intros w.
  - exists []. cbn [verdicts fst snd]. by rewrite app_nil_r.
  - cbn [verdicts].
    set (v := verdict_of p description (w_fs w !! p)).
    specialize (IH (verdict_world p v w)).
    destruct (verdicts ps description (verdict_world p v w)) as [vs w'].
    cbn [fst snd] in *. destruct IH as (lines & Hout & Hlen & Hcount).
    exists (verdict_line p v :: lines). split.
    { rewrite Hout. cbn [verdict_world w_stdout]. by rewrite <- app_assoc. }
    split; [cbn [length]; by rewrite Hlen|].
    unfold count_added in *. cbn [List.filter]. rewrite is_added_line_verdict.
    destruct (verdict_bool v); cbn [length]; by rewrite Hcount.
Qed.

(** * Files on which nothing is left to do *)

(** A header cut short by a failed write either still shows its tag, or is
    so short that cutting any header again gives the same text. *)
Lemma truncated_header_fixed (kept : nat) (fn d c fn' d' : str) :
  has_copyright (universal_newlines (take kept (render_header fn d ++ c))) = false ->
  take kept (render_header fn' d' ++ universal_newlines (take kept (render_header fn d ++ c)))
  = take kept (render_header fn d ++ c).
Proof.
  do 12 (destruct kept as [|kept]; [intros _; vm_compute; reflexivity|]).
  intros H. vm_compute in H. discriminate.
Qed.

Lemma verdict_fs_lookup (p d : str) (fs : gmap (list N) file) :
  verdict_fs p (verdict_of p d (fs !! p)) fs !! p = new_file p d (fs !! p).
Proof.
  unfold new_file. destruct (verdict_of p d (fs !! p)); cbn [verdict_fs];
    by rewrite ?lookup_insert_eq.
Qed.

Lemma unencodable_header (fn d c : str) :
  encodable c = true -> encodable (render_header fn d ++ c) = false ->
  encodable (render_header fn d ++ []) = false.
Proof.
  rewrite !encodable_app. intros ->. rewrite !andb_true_r. done.
Qed.

Lemma inert_new_file (p d : str) (fo : option file) : inert p d (new_file p d fo).
Proof.
  remember (new_file p d fo) as fo1 eqn:Hfo1.
  unfold new_file, verdict_of, read_result in Hfo1.
  destruct fo as [f|]; [|by subst fo1].
  destruct (f_read_error f) as [msg|] eqn:Hr.
  { subst fo1. unfold inert, new_file, verdict_of, read_result. by rewrite Hr. }
  destruct (f_payload f) as [raw|msg] eqn:Hp.
  2: { subst fo1. unfold inert, new_file, verdict_of, read_result. by rewrite Hr, Hp. }
  destruct (f_payload_text f raw Hp) as [_ Hraw].
  pose proof (encodable_universal_newlines raw Hraw) as Hread.
  destruct (has_copyright (universal_newlines raw)) eqn:Hm.
  { subst fo1. unfold inert, new_file, verdict_of, read_result. by rewrite Hr, Hp, Hm. }
  assert (Hm0 : has_copyright [] = false) by (vm_compute; reflexivity).
  unfold write_verdict in Hfo1.
  destruct (f_write f) as [|msg|kept msg] eqn:Hw.
  - destruct (encodable _) eqn:He in Hfo1; subst fo1;
      unfold inert, new_file, verdict_of, read_result, write_verdict;
      cbn [set_payload f_read_error f_write]; rewrite Hr, ?Hw.
    + fold (set_payload f (render_header (basename p) d ++ universal_newlines raw)).
      rewrite f_payload_set_payload by done.
      by rewrite has_copyright_reread_header.
    + fold (set_payload f []). rewrite f_payload_set_payload by done.
      cbn [universal_newlines].
      rewrite Hm0, (unencodable_header _ _ _ Hread He). done.
  - subst fo1. unfold inert, new_file, verdict_of, read_result, write_verdict.
    by rewrite Hr, Hp, Hm, Hw.
  - destruct (encodable _) eqn:He in Hfo1; subst fo1;
      unfold inert, new_file, verdict_of, read_result, write_verdict;
      cbn [set_payload f_read_error f_write]; rewrite Hr, ?Hw.
    + pose proof (encodable_take kept _ He) as Hcut.
      fold (set_payload f (take kept (render_header (basename p) d ++ universal_newlines raw))).
      rewrite f_payload_set_payload by done.
      destruct (has_copyright (universal_newlines (take kept _))) eqn:Hm'; [done|].
      assert (He' : encodable (render_header (basename p) d
                               ++ universal_newlines
                                    (take kept (render_header (basename p) d
                                                ++ universal_newlines raw))) = true).
      { rewrite encodable_app, (encodable_universal_newlines _ Hcut), andb_true_r.
        rewrite encodable_app in He. by apply andb_true_iff in He as [-> _]. }
      rewrite He'. rewrite truncated_header_fixed by done. done.
    + fold (set_payload f []). rewrite f_payload_set_payload by done.
      cbn [universal_newlines].
      rewrite Hm0, (unencodable_header _ _ _ Hread He). done.
Qed.

(** Whether a file is inert depends on the description only through whether
    the strict encoder accepts it. *)
Lemma inert_encodable (p d d' : str) (fo : option file) :
  encodable d' = encodable d -> inert p d fo -> inert p d' fo.
Proof.
  intros Hd. unfold inert, new_file, verdict_of.
  destruct (read_result p fo) as [content|e] eqn:Hread; [|done].
  destruct (has_copyright content) eqn:Hm; [done|].
  destruct fo as [f|]; [|done]. unfold read_result in Hread.
  destruct (f_read_error f); [done|].
  destruct (f_payload f) as [raw|msg] eqn:Hp; [|done].
  injection Hread as Hc. subst content.
  destruct (f_payload_text f raw Hp) as [Hst _].
  assert (He : encodable (render_header (basename p) d' ++ universal_newlines raw)
               = encodable (render_header (basename p) d ++ universal_newlines raw)).
  { by rewrite !encodable_app, !encodable_render_header, Hd. }
  unfold write_verdict. rewrite He.
  destruct (f_write f) as [|msg|kept msg]; [|done|].
  { destruct (encodable (render_header (basename p) d ++ universal_newlines raw));
      cbn [verdict_bool]; [by intros [? _] | done]. }
  set (T := render_header (basename p) d ++ universal_newlines raw) in *.
  set (T' := render_header (basename p) d' ++ universal_newlines raw).
  destruct (encodable T); [|done].
  cbn [verdict_bool]. intros [_ Hnew]. split; [done|].
  assert (Hraw : raw = take kept T).
  { apply (inj Some) in Hnew. apply (f_equal f_stored) in Hnew.
    cbn [set_payload f_stored] in Hnew. congruence. }
  assert (Hcut : take kept T' = take kept T).
  { unfold T'. rewrite Hraw at 1. unfold T. apply truncated_header_fixed.
    fold T. by rewrite <- Hraw. }
  by rewrite Hcut.
Qed.

Lemma inert_step_fs (p d : str) (fs : gmap (list N) file) :
  inert p d (fs !! p) -> verdict_fs p (verdict_of p d (fs !! p)) fs = fs.
Proof.
  intros [_ Hnew]. unfold new_file in Hnew.
  destruct (verdict_of p d (fs !! p)); cbn [verdict_fs]; by rewrite ?insert_id.
Qed.

Lemma verdicts_inert_preserved (paths : list str) (d d' : str) (w : world) (q : str) :
  encodable d' = encodable d ->
  inert q d' (w_fs w !! q) -> inert q d' (w_fs (verdicts paths d w).2 !! q).
Proof.
  intros Hd. revert w. induction paths as [|p ps IH]; intros w Hq; [done|].
  cbn [verdicts]. specialize (IH (verdict_world p (verdict_of p d (w_fs w !! p)) w)).
  destruct (verdicts ps d _) as [vs w']. cbn [snd] in *. apply IH.
  cbn [verdict_world w_fs]. destruct (decide (q = p)) as [->|Hne].
  - rewrite verdict_fs_lookup. apply (inert_encodable p d d'); [done|]. apply inert_new_file.
  - unfold verdict_fs. destruct (verdict_of p d _); by rewrite ?lookup_insert_ne.
Qed.

Lemma verdicts_inert_after (paths : list str) (d : str) (w : world) (q : str) :
  q ∈ paths -> inert q d (w_fs (verdicts paths d w).2 !! q).
Proof.
  revert w. induction paths as [|p ps IH]; intros w Hq.
  { by apply not_elem_of_nil in Hq. }
  cbn [verdicts].
  pose proof (verdicts_inert_preserved ps d d
                (verdict_world p (verdict_of p d (w_fs w !! p)) w) q eq_refl) as Hkeep.
  specialize (IH (verdict_world p (verdict_of p d (w_fs w !! p)) w)).
  destruct (verdicts ps d _) as [vs w']. cbn [snd] in *.
  apply elem_of_cons in Hq as [->|Hq]; [|by apply IH].
  apply Hkeep. cbn [verdict_world w_fs]. rewrite verdict_fs_lookup.
  apply inert_new_file.
Qed.

Lemma verdicts_of_inert (paths : list str) (d : str) (w : world) :
  (forall q, q ∈ paths -> inert q d (w_fs w !! q)) ->
  count_added (verdicts paths d w).1 = 0 /\ w_fs (verdicts paths d w).2 = w_fs w.
Proof.
  revert w. induction paths as [|p ps IH]; intros w Hin; [done|].
  cbn [verdicts].
  assert (Hp : inert p d (w_fs w !! p)) by (apply Hin, list_elem_of_here).
  assert (Hfs : w_fs (verdict_world p (verdict_of p d (w_fs w !! p)) w) = w_fs w).
  { cbn [verdict_world w_fs]. by apply inert_step_fs. }
  specialize (IH (verdict_world p (verdict_of p d (w_fs w !! p)) w)).
  destruct (verdicts ps d _) as [vs w']. cbn [fst snd] in *.
  destruct IH as [Hcount Hsame].
  { intros q Hq. rewrite Hfs. by apply Hin, list_elem_of_further. }
  split; [|by rewrite Hsame].
  unfold count_added in *. cbn [List.filter].
  destruct Hp as [-> _]. done.
Qed.

Lemma candidates_same_dirs (w w' : world) (directory : str) (extensions : list str) :
  w_dirs w' = w_dirs w -> candidates w' directory extensions = candidates w directory extensions.
Proof. intros H. unfold candidates, walk_of. by rewrite H. Qed.

Lemma process_directory_verdicts (directory description : str) (extensions : list str)
    (w : world) :
  process_directory directory description extensions w
  = (Returns (count_added (verdicts (candidates w directory extensions) description w).1),
     (verdicts (candidates w directory extensions) description w).2).
Proof. by rewrite process_directory_run, run_files_verdicts. Qed.

Lemma process_directory_of_inert (directory description : str) (extensions : list str)
    (w : world) :
  (forall q, q ∈ candidates w directory extensions -> inert q description (w_fs w !! q)) ->
  exists w', process_directory directory description extensions w = (Returns 0, w') /\
             w_fs w' = w_fs w /\ w_dirs w' = w_dirs w.
Proof.
  intros Hin. rewrite process_directory_verdicts.
  destruct (verdicts_of_inert _ description w Hin) as [-> Hfs].
  eexists. split; [done|]. split; [done|]. apply verdicts_frame.
Qed.

(** * The entry point *)

Lemma candidates_of_missing (directory : str) (extensions : list str) (w : world) :
  path_exists directory w = false -> candidates w directory extensions = [].
Proof.
  unfold path_exists, candidates, walk_of. intros H.
  apply orb_false_iff in H as [H _]. apply bool_decide_eq_false in H.
  destruct (w_dirs w !! directory); [|done]. destruct H. by eexists.
Qed.

(** The descriptions of [main] are text that the strict encoder accepts. *)
Lemma main_descriptions_encodable (directory : str) (label : string) (extensions : list str) :
  (directory, label, extensions) ∈ MAIN_GROUPS -> encodable (description_of label) = true.
Proof.
  unfold MAIN_GROUPS. intros Hg.
  apply elem_of_cons in Hg as [[= -> -> ->]|Hg]; [vm_compute; reflexivity|].
  apply elem_of_cons in Hg as [[= -> -> ->]|Hg]; [vm_compute; reflexivity|].
  apply elem_of_cons in Hg as [[= -> -> ->]|Hg]; [vm_compute; reflexivity|].
  by apply not_elem_of_nil in Hg.
Qed.

Lemma main_group_spec (directory : str) (label : string) (extensions : list str)
    (total : nat) (w : world) :
  encodable (description_of label) = true ->
  exists n w',
    main_group directory label extensions total w = (Returns (total + n), w') /\
    w_dirs w' = w_dirs w /\
    (forall q d, encodable d = true -> inert q d (w_fs w !! q) -> inert q d (w_fs w' !! q)) /\
    (forall q d, encodable d = true ->
       q ∈ candidates w directory extensions -> inert q d (w_fs w' !! q)) /\
    ((forall q, q ∈ candidates w directory extensions ->
                inert q (description_of label) (w_fs w !! q)) ->
     n = 0 /\ w_fs w' = w_fs w).
Proof.
  intros Henc.
  unfold main_group. destruct (path_exists directory w) eqn:Hex.
  - unfold bind, print, ret. rewrite process_directory_verdicts.
    set (w0 := put_line _ w).
    assert (Hc : candidates w0 directory extensions = candidates w directory extensions)
      by (by apply candidates_same_dirs).
    rewrite Hc.
    set (ps := candidates w directory extensions).
    set (d := description_of label) in *.
    eexists _, _. split; [reflexivity|]. cbn [put_line w_fs w_dirs].
    split; [apply (verdicts_frame ps d w0)|].
    split.
    { intros q d' Hd' Hq. apply (verdicts_inert_preserved ps d d' w0); [congruence | done]. }
    split.
    { intros q d' Hd' Hq. apply (inert_encodable q d d'); [congruence|].
      by apply (verdicts_inert_after ps d w0). }
    intros Hin. by apply (verdicts_of_inert ps d w0).
  - exists 0, w. rewrite Nat.add_0_r. split; [done|]. split; [done|]. split; [done|].
    rewrite candidates_of_missing by done.
    split; [|done]. intros q d' _ Hq. by apply not_elem_of_nil in Hq.
Qed.

Ltac step_main_group n w' E Hd Hk Ha Hz :=
  match goal with
  | |- context [main_group ?a ?b ?c ?t ?w] =>
      destruct (main_group_spec a b c t w) as (n & w' & E & Hd & Hk & Ha & Hz);
      [vm_compute; reflexivity|];
      rewrite E
  end.

Lemma main_groups_spec (w : world) :
  exists n w',
    main_groups w = (Returns n, w') /\
    w_dirs w' = w_dirs w /\
    (forall q d, encodable d = true -> inert q d (w_fs w !! q) -> inert q d (w_fs w' !! q)) /\
    (forall directory label extensions q d,
       (directory, label, extensions) ∈ MAIN_GROUPS ->
       encodable d = true ->
       q ∈ candidates w directory extensions -> inert q d (w_fs w' !! q)) /\
    ((forall directory label extensions q,
        (directory, label, extensions) ∈ MAIN_GROUPS ->
        q ∈ candidates w directory extensions ->
        inert q (description_of label) (w_fs w !! q)) ->
     n = 0 /\ w_fs w' = w_fs w).
Proof.
  unfold main_groups, bind, print.
  set (w0 := put_line _ w).
  step_main_group n1 w1 E1 Hd1 Hk1 Ha1 Hz1.
  step_main_group n2 w2 E2 Hd2 Hk2 Ha2 Hz2.
  step_main_group n3 w3 E3 Hd3 Hk3 Ha3 Hz3.
  assert (Hd0 : w_dirs w0 = w_dirs w) by reflexivity.
  assert (Hf0 : w_fs w0 = w_fs w) by reflexivity.
  rewrite Hd0 in Hd1. rewrite Hd1 in Hd2. rewrite Hd2 in Hd3.
  rewrite Hf0 in Hk1, Hz1.
  assert (Hc0 : forall dir exts, candidates w0 dir exts = candidates w dir exts)
    by (intros; by apply candidates_same_dirs).
  assert (Hc1 : forall dir exts, candidates w1 dir exts = candidates w dir exts)
    by (intros; by apply candidates_same_dirs).
  assert (Hc2 : forall dir exts, candidates w2 dir exts = candidates w dir exts)
    by (intros; by apply candidates_same_dirs).
  rewrite Hc0 in Ha1, Hz1. rewrite Hc1 in Ha2, Hz2. rewrite Hc2 in Ha3, Hz3.
  eexists _, w3. split; [reflexivity|].
  split; [done|].
  split; [intros q d Hd Hq; by apply Hk3, Hk2, Hk1|].
  split.
  - intros directory label extensions q d Hg Hd Hq. unfold MAIN_GROUPS in Hg.
    apply elem_of_cons in Hg as [[= -> -> ->]|Hg]; [by apply Hk3, Hk2, Ha1|].
    apply elem_of_cons in Hg as [[= -> -> ->]|Hg]; [by apply Hk3, Ha2|].
    apply elem_of_cons in Hg as [[= -> -> ->]|Hg]; [by apply Ha3|].
    by apply not_elem_of_nil in Hg.
  - intros Hin.
    destruct Hz1 as [-> Hf1].
    { intros q Hq. eapply Hin; [|done]. apply list_elem_of_here. }
    destruct Hz2 as [-> Hf2].
    { intros q Hq. rewrite Hf1. eapply Hin; [|done].
      apply list_elem_of_further, list_elem_of_here. }
    destruct Hz3 as [-> Hf3].
    { intros q Hq. rewrite Hf2, Hf1. eapply Hin; [|done].
      do 2 apply list_elem_of_further. apply list_elem_of_here. }
    split; [done|]. by rewrite Hf3, Hf2, Hf1.
Qed.

(** C2. A second run modifies no file.  After [process_directory] has run,
    running it again on the same directory returns 0 and leaves every
    file as it is.  After [main] has run, every file that the walker hands to
    the file processor, in any of the three groups, is skipped or fails as
    before: in every world with the same files and directories, each
    [process_directory] call of [main] returns 0 without changing a file, and
    the second run of [main] ends with [total_count = 0], the sum of those
    counts. *)
Theorem second_run_modifies_nothing :
  (forall directory description extensions w,
     exists n w1 w2,
       process_directory directory description extensions w = (Returns n, w1) /\
       process_directory directory description extensions w1 = (Returns 0, w2) /\
       w_fs w2 = w_fs w1)
  /\
  (forall w,
     exists w1 w2,
       main w = (Returns tt, w1) /\
       main_groups w1 = (Returns 0, w2) /\
       w_fs w2 = w_fs w1 /\
       forall directory label extensions w',
         (directory, label, extensions) ∈ MAIN_GROUPS ->
         w_fs w' = w_fs w1 -> w_dirs w' = w_dirs w1 ->
         exists w'',
           process_directory directory (description_of label) extensions w'
             = (Returns 0, w'') /\
           w_fs w'' = w_fs w').
Proof.
  split.
  - intros directory description extensions w.
    rewrite process_directory_verdicts.
    set (ps := candidates w directory extensions).
    set (w1 := (verdicts ps description w).2).
    destruct (process_directory_of_inert directory description extensions w1)
      as (w2 & Hrun & Hfs & _).
    { rewrite (candidates_same_dirs w w1) by apply verdicts_frame.
      intros q Hq. by apply verdicts_inert_after. }
    exists (count_added (verdicts ps description w).1), w1, w2. done.
  - intros w. destruct (main_groups_spec w) as (n & w1 & E & Hd & Hk & Ha & _).
    set (w1' := put_line (lit "✨ 完成！共为 " ++ str_of_nat n ++ lit " 个文件添加了版权注释") w1).
    assert (Hin : forall directory label extensions q,
              (directory, label, extensions) ∈ MAIN_GROUPS ->
              q ∈ candidates w directory extensions ->
              forall d, encodable d = true -> inert q d (w_fs w1' !! q))
      by (intros; by eapply Ha).
    assert (Hd1 : w_dirs w1' = w_dirs w) by exact Hd.
    destruct (main_groups_spec w1') as (n2 & w2 & E2 & _ & _ & _ & Hz).
    destruct Hz as [-> Hfs].
    { intros directory label extensions q Hg Hq.
      rewrite (candidates_same_dirs w w1') in Hq by done.
      eapply Hin; [done | done |]. by eapply main_descriptions_encodable. }
    exists w1', w2. split; [unfold main, bind; by rewrite E|].
    split; [done|]. split; [done|].
    intros directory label extensions w' Hg Hfs' Hd'.
    destruct (process_directory_of_inert directory (description_of label) extensions w')
      as (w'' & Hrun & Hsame & _); [|by exists w''].
    intros q Hq. rewrite Hfs'.
    rewrite (candidates_same_dirs w w') in Hq by (by rewrite Hd').
    eapply Hin; [done | done |]. by eapply main_descriptions_encodable.
Qed.

(** * Failures stay inside the file processor, if they can be reported *)

Lemma elem_of_reads (evs : list io_event) (paths : list str) (q : str) :
  List.filter is_open_read evs = map OpenRead paths -> q ∈ paths -> OpenRead q ∈ evs.
Proof.
  intros Hreads Hq. apply list_elem_of_In.
  apply (proj1 (List.filter_In is_open_read (OpenRead q) evs)).
  rewrite Hreads. apply List.in_map. by apply list_elem_of_In.
Qed.








(** Where every line of a call can be printed, the strict output and the
    output that rejects nothing give the same call. *)
Lemma strict_agrees (p d : str) (w : world) :
  encodable (verdict_line p (verdict_of p d (w_fs w !! p))) = true ->
  StrictStdout.add_copyright_to_file p d w = add_copyright_to_file p d w.
Proof.
  unfold StrictStdout.add_copyright_to_file, StrictStdout.add_copyright_body,
    add_copyright_to_file, add_copyright_body, try_except, bind, verdict_of, write_verdict.
  rewrite open_read_result.
  destruct (w_fs w !! p) as [f|] eqn:Hf.
  2: { cbn [read_result verdict_line]. unfold StrictStdout.print, print. by intros ->. }
  destruct (read_result p (Some f)) as [content|e].
  2: { cbn [verdict_line]. unfold StrictStdout.print, print. by intros ->. }
  destruct (has_copyright content).
  { cbn [verdict_line]. unfold StrictStdout.print, print. by intros ->. }
  unfold lift. rewrite render_copyright_header.
  unfold open_write. cbn [w_fs log_io]. rewrite Hf.
  destruct (f_write f); try destruct (encodable (_ ++ _));
    cbn [verdict_line]; unfold StrictStdout.print, print; by intros ->.
Qed.




(** The scenario of the specification on the strict output: every path of
    the sample tree can be printed, the unreadable file is reported and not
    counted, and the files after it are processed. *)
Example unreadable_file_scenario_strict :
  exists w',
    StrictStdout.process_directory (lit "admin/src") (lit "d")
      [lit ".tsx"; lit ".ts"; lit ".css"] sample_world = (Returns 4, w') /\
    take 2 (w_stdout w')
      = [ lit "❌ 处理失败 admin/src/locked.ts: [Errno 13] Permission denied: 'admin/src/locked.ts'";
          lit "✅ 已添加版权注释: admin/src/widget.tsx" ] /\
    w_fs w' !! lit "admin/src/locked.ts" = w_fs sample_world !! lit "admin/src/locked.ts".
Proof.
  exists (snd (StrictStdout.process_directory (lit "admin/src") (lit "d")
                 [lit ".tsx"; lit ".ts"; lit ".css"] sample_world)).
  do 2 (split; [vm_compute; reflexivity|]). vm_compute. reflexivity.
Qed.

(** On an output that rejects nothing the same failure is reported and the
    run goes on: the file with the odd name is emptied and not counted, the
    next one is annotated. *)
Example unencodable_header_empties_file :
  exists w',
    process_directory (lit "admin/src") (lit "d") [lit ".ts"] odd_world = (Returns 1, w') /\
    w_stdout w'
      = [ lit "❌ 处理失败 admin/src/" ++ odd_name
          ++ lit ": 'utf-8' codec can't encode character '\udcff' in position 13: surrogates not allowed";
          lit "✅ 已添加版权注释: admin/src/next.ts" ] /\
    w_fs w' !! (lit "admin/src/" ++ odd_name) = Some (text_file []) /\
    w_fs w' !! lit "admin/src/next.ts"
      = Some (text_file (render_header (lit "next.ts") (lit "d") ++ lit "let n = 0;")).
Proof.
  exists (snd (process_directory (lit "admin/src") (lit "d") [lit ".ts"] odd_world)).
  do 3 (split; [vm_compute; reflexivity|]). vm_compute. reflexivity.
Qed.

(** Bytes that are not UTF-8: the decoding error is caught like the others. *)
Example decoding_failure_is_caught :
  fst (add_copyright_body (lit "admin/src/binary.ts") (lit "d") sample_world)
    = Raises (UnicodeDecodeError (lit "'utf-8' codec can't decode byte 0xff in position 0: invalid start byte")) /\
  fst (add_copyright_to_file (lit "admin/src/binary.ts") (lit "d") sample_world)
    = Returns false /\
  w_stdout (snd (add_copyright_to_file (lit "admin/src/binary.ts") (lit "d") sample_world))
    = [failed_line (lit "admin/src/binary.ts")
         (UnicodeDecodeError (lit "'utf-8' codec can't decode byte 0xff in position 0: invalid start byte"))] /\
  w_fs (snd (add_copyright_to_file (lit "admin/src/binary.ts") (lit "d") sample_world))
    !! lit "admin/src/binary.ts"
    = w_fs sample_world !! lit "admin/src/binary.ts".
Proof. do 3 (split; [vm_compute; reflexivity|]). vm_compute. reflexivity. Qed.

(** On the sample tree the first run adds four headers and the second
    none. *)
Example sample_second_run :
  fst (process_directory (lit "admin/src") (lit "d") [lit ".tsx"; lit ".ts"; lit ".css"]
         sample_world) = Returns 4 /\
  fst (process_directory (lit "admin/src") (lit "d") [lit ".tsx"; lit ".ts"; lit ".css"]
         (snd (process_directory (lit "admin/src") (lit "d")
                 [lit ".tsx"; lit ".ts"; lit ".css"] sample_world))) = Returns 0.
Proof. split; vm_compute; reflexivity. Qed.

(** The scenario of the specification: an unreadable file is reported, it is
    not counted, and the files after it in the same directory are still
    processed. *)
Example unreadable_file_scenario :
  exists w',
    process_directory (lit "admin/src") (lit "d") [lit ".tsx"; lit ".ts"; lit ".css"] sample_world
      = (Returns 4, w') /\
    take 2 (w_stdout w')
      = [ failed_line (lit "admin/src/locked.ts") (OSError (lit "[Errno 13] Permission denied: 'admin/src/locked.ts'"));
          added_line (lit "admin/src/widget.tsx") ] /\
    w_fs w' !! lit "admin/src/locked.ts" = w_fs sample_world !! lit "admin/src/locked.ts" /\
    w_fs w' !! lit "admin/src/node_modules/dep.ts"
      = w_fs sample_world !! lit "admin/src/node_modules/dep.ts" /\
    w_fs w' !! lit "admin/src/ui/dist/out.ts"
      = w_fs sample_world !! lit "admin/src/ui/dist/out.ts" /\
    w_fs w' !! lit "admin/src/notes.md" = w_fs sample_world !! lit "admin/src/notes.md" /\
    w_fs w' !! lit "admin/src/ui/button.tsx"
      = Some (text_file (render_header (lit "button.tsx") (lit "d") ++ lit "export const b = 2;")).
Proof.
  exists (snd (process_directory (lit "admin/src") (lit "d")
                 [lit ".tsx"; lit ".ts"; lit ".css"] sample_world)).
  do 6 (split; [vm_compute; reflexivity|]). vm_compute. reflexivity.
Qed.

(** * Paths *)

Lemma dirtree_ind (P : dirtree -> Prop) :
  (forall files subdirs, Forall (fun entry => P entry.2) subdirs -> P (Dir files subdirs)) ->
  forall t, P t.
Proof.
  intros HDir. fix IH 1. intros [files subdirs]. apply HDir.
  induction subdirs as [|[d sub] subdirs IHs]; constructor; [apply IH | apply IHs].
Qed.

Lemma valid_name_spec (n : str) :
  valid_name n = true <-> n <> [] /\ SLASH ∉ n.
Proof.
  unfold valid_name. rewrite andb_true_iff, !negb_true_iff, bool_decide_eq_false.
  apply and_iff_compat_l. rewrite <- not_true_iff_false, existsb_exists.
  split.
  - intros H Hin. apply H. exists SLASH. split; [by apply list_elem_of_In | apply N.eqb_refl].
  - intros H (x & Hx & Heq). apply N.eqb_eq in Heq as <-. by apply H, list_elem_of_In.
Qed.




Lemma elem_of_candidates_of (extensions : list str) (walk : list (str * list str)) (p : str) :
  p ∈ candidates_of extensions walk <->
  exists root files file,
    (root, files) ∈ walk /\ file ∈ files /\ accepted extensions file = true /\
    p = join root file.
Proof.
  unfold candidates_of. rewrite list_elem_of_In, in_flat_map. split.
  - intros ([root files] & Hwalk & Hp). apply in_map_iff in Hp as (file & <- & Hfile).
    apply List.filter_In in Hfile as [Hfile Hacc].
    exists root, files, file. by rewrite !list_elem_of_In.
  - intros (root & files & file & Hwalk & Hfile & Hacc & ->).
    exists (root, files). split; [by apply list_elem_of_In|].
    apply in_map, List.filter_In. split; [by apply list_elem_of_In | done].
Qed.


Lemma os_walk_located (keep : str -> bool) (t : dirtree) (top root : str) (files : list str) :
  (root, files) ∈ os_walk keep top t <->
  exists ds, located t ds files /\ Forall (fun d => keep d = true) ds /\ root = path_of top ds.
Proof.
  split.
  - revert top. induction t as [fs subdirs IH] using dirtree_ind. intros top Hin.
    cbn [os_walk] in Hin. apply elem_of_cons in Hin as [[= -> ->]|Hin].
    { exists []. split; [constructor | done]. }
    apply list_elem_of_In, in_concat in Hin as (l & Hl & Hin).
    apply in_map_iff in Hl as ([d sub] & <- & Hentry).
    destruct (keep d) eqn:Hkeep; [|by destruct Hin].
    apply list_elem_of_In in Hentry.
    rewrite Forall_forall in IH. specialize (IH (d, sub) Hentry (join top d)).
    destruct IH as (ds & Hloc & Hall & ->); [by apply list_elem_of_In|].
    exists (d :: ds). split; [by econstructor|]. split; [by constructor | done].
  - intros (ds & Hloc & Hall & ->). revert top Hall.
    induction Hloc as [fs subdirs | fs subdirs d sub ds fs' Hentry Hloc IH]; intros top Hall.
    { cbn [os_walk path_of]. apply list_elem_of_here. }
    apply Forall_cons in Hall as [Hkeep Hall].
    cbn [os_walk path_of]. apply list_elem_of_further, list_elem_of_In, in_concat.
    exists (os_walk keep (join top d) sub). split; [|by apply list_elem_of_In, IH].
    apply in_map_iff. exists (d, sub). rewrite Hkeep. split; [done | by apply list_elem_of_In].
Qed.

Lemma elem_of_candidates (w : world) (directory : str) (extensions : list str)
    (t : dirtree) (p : str) :
  w_dirs w !! directory = Some t ->
  p ∈ candidates w directory extensions <->
  exists ds files file,
    located t ds files /\ Forall (fun d => not_excluded d = true) ds /\
    file ∈ files /\ accepted extensions file = true /\
    p = path_of directory (ds ++ [file]).
Proof.
  intros Ht. unfold candidates, walk_of. rewrite Ht, elem_of_candidates_of. split.
  - intros (root & files & file & Hwalk & Hfile & Hacc & ->).
    apply os_walk_located in Hwalk as (ds & Hloc & Hall & ->).
    exists ds, files, file. do 4 (split; [done|]).
    clear. revert directory. induction ds as [|d ds IH]; intros top; [done|]. apply IH.
  - intros (ds & files & file & Hloc & Hall & Hfile & Hacc & ->).
    exists (path_of directory ds), files, file.
    split; [apply os_walk_located; by exists ds|]. do 2 (split; [done|]).
    clear. revert directory. induction ds as [|d ds IH]; intros top; [done|]. apply IH.
Qed.

Lemma valid_name_head (n : str) :
  valid_name n = true -> startswith n [SLASH] = false.
Proof.
  rewrite valid_name_spec. intros [Hne Hno]. destruct n as [|c n]; [done|].
  cbn [startswith]. apply not_elem_of_cons in Hno as [Hc _].
  rewrite andb_true_r. by apply N.eqb_neq.
Qed.

Lemma endswith_slash_false (s n : str) :
  valid_name n = true -> endswith (s ++ n) [SLASH] = false.
Proof.
  rewrite valid_name_spec. intros [Hne Hno]. unfold endswith.
  rewrite rev_app_distr. destruct (rev n) as [|c r] eqn:Hrev.
  { destruct Hne. by rewrite <- (rev_involutive n), Hrev. }
  cbn [rev app startswith]. rewrite andb_true_r. apply N.eqb_neq. intros <-.
  apply Hno. apply list_elem_of_In, in_rev. rewrite Hrev. by left.
Qed.

Lemma join_valid (top n : str) :
  valid_name n = true -> join top n = dir_prefix top ++ n.
Proof.
  intros Hn. unfold join, dir_prefix. rewrite valid_name_head by done.
  destruct (_ || _); [done | by rewrite <- app_assoc].
Qed.

Lemma dir_prefix_join (top n : str) :
  valid_name n = true -> dir_prefix (join top n) = join top n ++ [SLASH].
Proof.
  intros Hn. rewrite join_valid by done. unfold dir_prefix.
  rewrite endswith_slash_false by done. rewrite orb_false_r.
  rewrite bool_decide_eq_false_2; [done|].
  apply valid_name_spec in Hn as [Hne _]. intros H. by apply app_eq_nil in H as [_ ?].
Qed.

Lemma path_of_joined (top n : str) (ns : list str) :
  forallb valid_name (n :: ns) = true ->
  path_of top (n :: ns) = dir_prefix top ++ joined n ns.
Proof.
  revert top n. induction ns as [|m ns IH]; intros top n Hv;
    cbn [forallb] in Hv; apply andb_true_iff in Hv as [Hn Hv].
  - cbn [path_of joined]. by apply join_valid.
  - change (path_of top (n :: m :: ns)) with (path_of (join top n) (m :: ns)).
    rewrite IH by done. rewrite dir_prefix_join, join_valid by done.
    cbn [joined]. by rewrite <- !app_assoc.
Qed.

Lemma split_at_slash (a a' x x' : str) :
  SLASH ∉ a -> SLASH ∉ a' -> a ++ SLASH :: x = a' ++ SLASH :: x' -> a = a' /\ x = x'.
Proof.
  revert a'. induction a as [|c a IH]; intros a' Ha Ha' Heq.
  - destruct a' as [|c' a']; [by injection Heq|].
    injection Heq as <- _. destruct Ha'. apply list_elem_of_here.
  - destruct a' as [|c' a'].
    + injection Heq as -> _. destruct Ha. apply list_elem_of_here.
    + injection Heq as -> Heq. apply not_elem_of_cons in Ha as [_ Ha].
      apply not_elem_of_cons in Ha' as [_ Ha'].
      destruct (IH a' Ha Ha' Heq) as [-> ->]. done.
Qed.

Lemma joined_inj (n n' : str) (ns ns' : list str) :
  forallb valid_name (n :: ns) = true -> forallb valid_name (n' :: ns') = true ->
  joined n ns = joined n' ns' -> n :: ns = n' :: ns'.
Proof.
  revert n n' ns'. induction ns as [|m ns IH]; intros n n' ns' Hv Hv' Heq;
    cbn [forallb] in Hv, Hv';
    apply andb_true_iff in Hv as [Hn Hv]; apply andb_true_iff in Hv' as [Hn' Hv'];
    apply valid_name_spec in Hn as [_ Hn]; apply valid_name_spec in Hn' as [_ Hn'].
  - destruct ns' as [|m' ns']; cbn [joined] in Heq; [by rewrite Heq|].
    destruct Hn. rewrite Heq. apply elem_of_app. right. apply list_elem_of_here.
  - destruct ns' as [|m' ns']; cbn [joined] in Heq.
    { destruct Hn'. rewrite <- Heq. apply elem_of_app. right. apply list_elem_of_here. }
    apply split_at_slash in Heq as [-> Heq]; [|done ..].
    f_equal. by apply IH.
Qed.

Lemma path_of_inj (top : str) (l l' : list str) :
  forallb valid_name l = true -> forallb valid_name l' = true ->
  l <> [] -> l' <> [] -> path_of top l = path_of top l' -> l = l'.
Proof.
  intros Hv Hv' Hne Hne' Heq.
  destruct l as [|n ns]; [done|]. destruct l' as [|n' ns']; [done|].
  rewrite !path_of_joined in Heq by done.
  apply app_inv_head in Heq. by apply joined_inj.
Qed.

Lemma located_valid (t : dirtree) (ds files : list str) :
  wf_tree t = true -> located t ds files ->
  forallb valid_name ds = true /\ forallb valid_name files = true.
Proof.
  intros Hwf Hloc. induction Hloc as [fs subdirs | fs subdirs d sub ds fs' Hentry Hloc IH];
    cbn [wf_tree] in Hwf; apply andb_true_iff in Hwf as [Hfiles Hsubs].
  - done.
  - rewrite forallb_forall in Hsubs. apply list_elem_of_In, Hsubs in Hentry.
    apply andb_true_iff in Hentry as [Hd Hsub].
    destruct (IH Hsub) as [Hds Hfs]. split; [|done]. cbn [forallb]. by rewrite Hd, Hds.
Qed.

(** * The directory walker *)







(** The candidates of the sample tree, in the order of the walk: the files
    with other extensions and those below [node_modules] and [dist] are
    left out. *)
Example sample_candidates :
  candidates sample_world (lit "admin/src") [lit ".tsx"; lit ".ts"; lit ".css"]
  = [ lit "admin/src/locked.ts"; lit "admin/src/widget.tsx"; lit "admin/src/styles.css";
      lit "admin/src/crlf.ts"; lit "admin/src/a{b}.ts"; lit "admin/src/full.ts";
      lit "admin/src/binary.ts"; lit "admin/src/ui/button.tsx" ].
Proof. vm_compute. reflexivity. Qed.

(** C5. In a tree whose names are valid (not empty, no slash), a file
    that lies below a subdirectory named [node_modules], [dist], [build] or
    [.git] is not a candidate of [process_directory], whatever its
    extension: the run never opens it, for reading or for writing, and leaves
    it as it is. *)
Theorem excluded_subtree_untouched
    (directory description : str) (extensions : list str) (w : world)
    (t : dirtree) (ds files : list str) (file : str) :
  w_dirs w !! directory = Some t ->
  wf_tree t = true ->
  located t ds files ->
  file ∈ files ->
  Exists (fun d => list_in d EXCLUDED = true) ds ->
  exists n w' evs,
    process_directory directory description extensions w = (Returns n, w') /\
    w_io w' = w_io w ++ evs /\
    (forall ev, ev ∈ evs -> io_path ev <> path_of directory (ds ++ [file])) /\
    w_fs w' !! path_of directory (ds ++ [file])
      = w_fs w !! path_of directory (ds ++ [file]) /\
    path_of directory (ds ++ [file]) ∉ candidates w directory extensions.
Proof.
  intros Ht Hwf Hloc Hfile Hexcl.
  set (q := path_of directory (ds ++ [file])).
  set (ps := candidates w directory extensions).
  assert (Hnot : q ∉ ps).
  { intros Hin. apply (elem_of_candidates w directory extensions t q Ht) in Hin
      as (ds' & files' & file' & Hloc' & Hkeep & Hfile' & _ & Heq).
    destruct (located_valid t ds files Hwf Hloc) as [Hds Hfiles].
    destruct (located_valid t ds' files' Hwf Hloc') as [Hds' Hfiles'].
    rewrite forallb_forall in Hfiles, Hfiles'.
    apply list_elem_of_In, Hfiles in Hfile. apply list_elem_of_In, Hfiles' in Hfile'.
    apply path_of_inj in Heq.
    - apply app_inj_tail in Heq as [-> _].
      apply Exists_exists in Hexcl as (d & Hd & Hbad).
      rewrite Forall_forall in Hkeep. specialize (Hkeep d Hd).
      unfold not_excluded in Hkeep. by rewrite Hbad in Hkeep.
    - rewrite forallb_app. cbn [forallb]. by rewrite Hds, Hfile.
    - rewrite forallb_app. cbn [forallb]. by rewrite Hds', Hfile'.
    - by destruct ds.
    - by destruct ds'. }
  destruct (verdicts_frame ps description w)
    as (_ & Hfs & _ & (evs & Hio & _ & Hpaths) & _).
  exists (count_added (verdicts ps description w).1), (verdicts ps description w).2, evs.
  split; [apply process_directory_verdicts|]. split; [done|].
  split; [intros ev Hev Heq; apply Hnot; rewrite <- Heq; by apply Hpaths|].
  split; [by apply Hfs | done].
Qed.

Lemma excluded_subtree_untouched_witness :
  exists n w' evs,
    process_directory (lit "admin/src") (lit "d") [lit ".ts"] sample_world = (Returns n, w') /\
    w_io w' = w_io sample_world ++ evs /\
    (forall ev, ev ∈ evs ->
       io_path ev <> path_of (lit "admin/src") ([lit "ui"; lit "dist"] ++ [lit "out.ts"])) /\
    w_fs w' !! path_of (lit "admin/src") ([lit "ui"; lit "dist"] ++ [lit "out.ts"])
      = w_fs sample_world !! path_of (lit "admin/src") ([lit "ui"; lit "dist"] ++ [lit "out.ts"]) /\
    path_of (lit "admin/src") ([lit "ui"; lit "dist"] ++ [lit "out.ts"])
      ∉ candidates sample_world (lit "admin/src") [lit ".ts"].
Proof.
  apply (excluded_subtree_untouched
           (lit "admin/src") (lit "d") [lit ".ts"] sample_world sample_tree
           [lit "ui"; lit "dist"] [lit "out.ts"] (lit "out.ts")).
  - vm_compute. reflexivity.
  - vm_compute. reflexivity.
  - eapply located_sub; [apply list_elem_of_further, list_elem_of_here|].
    eapply located_sub; [apply list_elem_of_here|]. apply located_here.
  - apply list_elem_of_here.
  - apply Exists_cons_tl, Exists_cons_hd. vm_compute. reflexivity.
Defined.

(** * Further properties of the file processor *)

Lemma new_file_same_kind (p d : str) (fo : option file) : same_kind fo (new_file p d fo).
Proof.
  unfold new_file, verdict_of, write_verdict, read_result, same_kind.
  destruct fo as [f|]; [|done].
  destruct (f_read_error f) eqn:Hr; [done|].
  destruct (f_payload f) as [raw|msg] eqn:Hp; [|done].
  destruct (has_copyright (universal_newlines raw)).
  { by repeat split. }
  destruct (f_write f) eqn:Hw; try destruct (encodable _);
    cbn [set_payload f_read_error f_write];
    repeat split; try done; intros msg' Hmsg; congruence.
Qed.

Lemma same_kind_refl (fo : option file) : same_kind fo fo.
Proof. destruct fo; [by repeat split | done]. Qed.

Lemma same_kind_trans (a b c : option file) :
  same_kind a b -> same_kind b c -> same_kind a c.
Proof.
  destruct a as [fa|], b as [fb|], c as [fc|]; cbn; try done.
  intros (Hr1 & Hw1 & Hp1) (Hr2 & Hw2 & Hp2).
  split; [congruence|]. split; [congruence|].
  intros msg Hmsg. specialize (Hp1 msg Hmsg). subst fb. by apply (Hp2 msg).
Qed.

Lemma verdict_world_lookup (p q d : str) (w : world) :
  w_fs (verdict_world p (verdict_of p d (w_fs w !! p)) w) !! q
  = if decide (q = p) then new_file p d (w_fs w !! p) else w_fs w !! q.
Proof.
  cbn [verdict_world w_fs]. destruct (decide (q = p)) as [->|Hne].
  - apply verdict_fs_lookup.
  - unfold verdict_fs. destruct (verdict_of p d _); by rewrite ?lookup_insert_ne.
Qed.

Lemma verdicts_same_kind (paths : list str) (d : str) (w : world) (q : str) :
  same_kind (w_fs w !! q) (w_fs (verdicts paths d w).2 !! q).
Proof.
  revert w. induction paths as [|p ps IH]; intros w; [apply same_kind_refl|].
  cbn [verdicts]. specialize (IH (verdict_world p (verdict_of p d (w_fs w !! p)) w)).
  destruct (verdicts ps d _) as [vs w']. cbn [snd] in *.
  eapply same_kind_trans; [|exact IH]. rewrite verdict_world_lookup.
  destruct (decide (q = p)) as [->|_]; [apply new_file_same_kind | apply same_kind_refl].
Qed.

Lemma verdicts_inert_lookup (paths : list str) (d : str) (w : world) (q : str) :
  inert q d (w_fs w !! q) -> w_fs (verdicts paths d w).2 !! q = w_fs w !! q.
Proof.
  revert w. induction paths as [|p ps IH]; intros w Hq; [done|].
  cbn [verdicts]. specialize (IH (verdict_world p (verdict_of p d (w_fs w !! p)) w)).
  destruct (verdicts ps d _) as [vs w']. cbn [snd] in *.
  assert (Hstep : w_fs (verdict_world p (verdict_of p d (w_fs w !! p)) w) !! q = w_fs w !! q).
  { rewrite verdict_world_lookup. destruct (decide (q = p)) as [->|_]; [|done].
    by destruct Hq. }
  rewrite IH; [done | by rewrite Hstep].
Qed.

Lemma verdicts_lookup_once (paths : list str) (d : str) (w : world) (q : str) :
  w_fs (verdicts paths d w).2 !! q = w_fs w !! q \/
  w_fs (verdicts paths d w).2 !! q = new_file q d (w_fs w !! q).
Proof.
  revert w. induction paths as [|p ps IH]; intros w; [by left|].
  cbn [verdicts].
  pose proof (verdicts_inert_lookup ps d
                (verdict_world p (verdict_of p d (w_fs w !! p)) w) q) as Hkeep.
  specialize (IH (verdict_world p (verdict_of p d (w_fs w !! p)) w)).
  destruct (verdicts ps d _) as [vs w']. cbn [snd] in *.
  rewrite verdict_world_lookup in IH, Hkeep.
  destruct (decide (q = p)) as [->|_]; [|done].
  right. apply Hkeep, inert_new_file.
Qed.

Lemma new_file_writable (p d : str) (f : file) (raw : str) :
  f_payload f = Utf8Text raw -> f_write f = Writable ->
  new_file p d (Some f) = Some f \/
  (encodable (render_header (basename p) d) = true /\
   new_file p d (Some f)
   = Some (set_payload f (render_header (basename p) d ++ universal_newlines raw))) \/
  (encodable (render_header (basename p) d) = false /\
   new_file p d (Some f) = Some (set_payload f [])).
Proof.
  unfold new_file, verdict_of, write_verdict, read_result.
  intros Hp Hw. rewrite Hp, Hw. destruct (f_read_error f); [by left|].
  destruct (has_copyright (universal_newlines raw)); [by left|].
  destruct (f_payload_text f raw Hp) as [_ Hraw].
  rewrite encodable_app, (encodable_universal_newlines raw Hraw), andb_true_r.
  destruct (encodable (render_header (basename p) d)); right; [by left | by right].
Qed.

(** X2. A run of [process_directory] never stacks headers: whatever the
    walker lists, and even if it lists a path more than once, a writable
    text file ends the run exactly as it was, or holding one header followed
    by its original text as read, or, when the strict encoder refuses the
    header for its base name and the description, empty: the write that
    failed has truncated it. *)
Theorem at_most_one_header_per_run
    (directory description : str) (extensions : list str) (w : world)
    (q : str) (f : file) (raw : str) :
  w_fs w !! q = Some f ->
  f_payload f = Utf8Text raw ->
  f_write f = Writable ->
  w_fs (snd (process_directory directory description extensions w)) !! q = Some f \/
  (encodable (render_header (basename q) description) = true /\
   w_fs (snd (process_directory directory description extensions w)) !! q
     = Some (set_payload f (render_header (basename q) description
                            ++ universal_newlines raw))) \/
  (encodable (render_header (basename q) description) = false /\
   w_fs (snd (process_directory directory description extensions w)) !! q
     = Some (set_payload f [])).
Proof.
  intros Hf Hp Hw. rewrite process_directory_verdicts. cbn [snd].
  destruct (verdicts_lookup_once (candidates w directory extensions) description w q)
    as [->| ->]; rewrite Hf; [by left|].
  by apply new_file_writable.
Qed.

Lemma at_most_one_header_per_run_witness :
  w_fs (snd (process_directory (lit "admin/src") (lit "d") [lit ".tsx"] sample_world))
    !! lit "admin/src/widget.tsx"
    = Some (text_file (lit "export const x = 1;")) \/
  (encodable (render_header (basename (lit "admin/src/widget.tsx")) (lit "d")) = true /\
   w_fs (snd (process_directory (lit "admin/src") (lit "d") [lit ".tsx"] sample_world))
     !! lit "admin/src/widget.tsx"
     = Some (set_payload (text_file (lit "export const x = 1;"))
               (render_header (basename (lit "admin/src/widget.tsx")) (lit "d")
                ++ universal_newlines (lit "export const x = 1;")))) \/
  (encodable (render_header (basename (lit "admin/src/widget.tsx")) (lit "d")) = false /\
   w_fs (snd (process_directory (lit "admin/src") (lit "d") [lit ".tsx"] sample_world))
     !! lit "admin/src/widget.tsx"
     = Some (set_payload (text_file (lit "export const x = 1;")) [])).
Proof.
  apply (at_most_one_header_per_run
           (lit "admin/src") (lit "d") [lit ".tsx"] sample_world
           (lit "admin/src/widget.tsx") (text_file (lit "export const x = 1;"))
           (lit "export const x = 1;"));
    vm_compute; reflexivity.
Defined.

(** X3. [process_directory] never creates, removes or renames anything:
    the directory listings and the set of paths that hold a file are the
    same after the run, every file keeps its read and write behaviour, and
    a file whose bytes are not UTF-8 is left exactly as it was. *)
Theorem process_directory_keeps_files
    (directory description : str) (extensions : list str) (w : world) :
  w_dirs (snd (process_directory directory description extensions w)) = w_dirs w /\
  dom (w_fs (snd (process_directory directory description extensions w))) = dom (w_fs w) /\
  forall q f,
    w_fs w !! q = Some f ->
    exists f',
      w_fs (snd (process_directory directory description extensions w)) !! q = Some f' /\
      f_read_error f' = f_read_error f /\
      f_write f' = f_write f /\
      (forall msg, f_payload f = NotUtf8 msg -> f' = f).
Proof.
  rewrite process_directory_verdicts. cbn [snd].
  set (ps := candidates w directory extensions).
  split; [apply verdicts_frame|]. split.
  - apply set_eq. intros q. rewrite !elem_of_dom.
    pose proof (verdicts_same_kind ps description w q) as Hk. unfold same_kind in Hk.
    destruct (w_fs w !! q), (w_fs (verdicts ps description w).2 !! q);
      try done; split; intros [? ?]; done.
  - intros q f Hf.
    pose proof (verdicts_same_kind ps description w q) as Hk. unfold same_kind in Hk.
    rewrite Hf in Hk. destruct (w_fs (verdicts ps description w).2 !! q) as [f'|]; [|done].
    by exists f'.
Qed.


Lemma rfind_sep_succ_no_slash (n : str) : SLASH ∉ n -> rfind_sep_succ n = 0.
Proof.
  induction n as [|c n IH]; [done|]. intros Hno.
  apply not_elem_of_cons in Hno as [Hc Hn]. cbn [rfind_sep_succ]. rewrite IH by done.
  by destruct (N.eqb_spec c SLASH).
Qed.

Lemma rfind_sep_succ_app (pre n : str) :
  SLASH ∉ n -> rfind_sep_succ (pre ++ SLASH :: n) = S (length pre).
Proof.
  intros Hno. induction pre as [|c pre IH].
  - cbn [app rfind_sep_succ length]. rewrite rfind_sep_succ_no_slash by done.
    by rewrite N.eqb_refl.
  - rewrite <- app_comm_cons. cbn [rfind_sep_succ length]. by rewrite IH.
Qed.

Lemma drop_past_separator (pre n : str) (c : N) :
  drop (S (length pre)) (pre ++ c :: n) = n.
Proof. induction pre as [|x pre IH]; [done | exact IH]. Qed.

Lemma basename_dir_prefix (top n : str) :
  SLASH ∉ n -> basename (dir_prefix top ++ n) = n.
Proof.
  intros Hno. unfold basename, dir_prefix.
  destruct (bool_decide (top = [])) eqn:Hempty.
  { apply bool_decide_eq_true in Hempty as ->. cbn [orb app].
    by rewrite rfind_sep_succ_no_slash. }
  cbn [orb]. destruct (endswith top [SLASH]) eqn:Hend.
  - unfold endswith in Hend. apply startswith_prefix in Hend as [t Ht].
    assert (Htop : top = rev t ++ [SLASH]).
    { rewrite <- (rev_involutive top), Ht. by rewrite rev_app_distr. }
    rewrite Htop, <- app_assoc. cbn [app].
    rewrite rfind_sep_succ_app by done. apply drop_past_separator.
  - rewrite <- app_assoc. cbn [app]. rewrite rfind_sep_succ_app by done.
    apply drop_past_separator.
Qed.

(** X5. For a file name as a directory gives it (not empty, no slash),
    the base name of the path that the walker builds, [join root file], is
    the file name itself, whatever the root: the header written for a file
    found by the walk names that file, without any directory part. *)
Theorem header_names_the_file (root file description : str) :
  valid_name file = true ->
  basename (join root file) = file /\
  render_copyright (join root file) description = Returns (render_header file description).
Proof.
  intros Hv. assert (Hb : basename (join root file) = file).
  { rewrite join_valid by done. apply basename_dir_prefix.
    by apply valid_name_spec in Hv as [_ ?]. }
  split; [done|]. by rewrite render_copyright_header, Hb.
Qed.

Lemma header_names_the_file_witness :
  basename (join (lit "admin/src/ui") (lit "button.tsx")) = lit "button.tsx" /\
  render_copyright (join (lit "admin/src/ui") (lit "button.tsx")) (lit "d")
    = Returns (render_header (lit "button.tsx") (lit "d")).
Proof.
  apply (header_names_the_file (lit "admin/src/ui") (lit "button.tsx") (lit "d")).
  vm_compute. reflexivity.
Defined.

Lemma candidates_of_no_extension (walk : list (str * list str)) :
  candidates_of [] walk = [].
Proof.
  induction walk as [|[root files] walk IH]; [done|].
  cbn [candidates_of flat_map]. fold (candidates_of [] walk). rewrite IH, app_nil_r.
  induction files as [|file files IHf]; [done|]. exact IHf.
Qed.

(** X6. With an empty list of extensions, or for a directory that the
    world does not list, [process_directory] returns 0 and does nothing at
    all: no file is opened or changed and nothing is printed. *)
Theorem no_candidates_no_effect
    (directory description : str) (extensions : list str) (w : world) :
  extensions = [] \/ w_dirs w !! directory = None ->
  process_directory directory description extensions w = (Returns 0, w).
Proof.
  intros Hnone. rewrite process_directory_run.
  assert (Hc : candidates w directory extensions = []).
  { unfold candidates, walk_of. destruct Hnone as [-> | ->]; [|done].
    apply candidates_of_no_extension. }
  by rewrite Hc.
Qed.

Lemma no_candidates_no_effect_witness :
  process_directory (lit "admin/src") (lit "d") [] sample_world = (Returns 0, sample_world) /\
  process_directory (lit "backend/src") (lit "d") [lit ".js"] sample_world
    = (Returns 0, sample_world).
Proof.
  split.
  - apply (no_candidates_no_effect (lit "admin/src") (lit "d") [] sample_world).
    left. reflexivity.
  - apply (no_candidates_no_effect (lit "backend/src") (lit "d") [lit ".js"] sample_world).
    right. vm_compute. reflexivity.
Defined.

(** * Reading back and short files *)

Lemma universal_newlines_cr_free (s : str) : CR ∉ universal_newlines s.
Proof.
  remember (length s) as n eqn:Hn. revert s Hn.
  induction n as [n IH] using lt_wf_ind. intros s ->.
  destruct s as [|c t]; [apply not_elem_of_nil|].
  cbn [universal_newlines]. destruct (N.eqb_spec c CR) as [->|Hc].
  - apply not_elem_of_cons. split; [done|].
    destruct t as [|c' t']; [apply not_elem_of_nil|].
    destruct (c' =? LF)%N.
    + apply (IH (length t')); [cbn [length]; lia | done].
    + apply (IH (length (c' :: t'))); [cbn [length]; lia | done].
  - apply not_elem_of_cons. split; [congruence|].
    apply (IH (length t)); [cbn [length]; lia | done].
Qed.

Lemma render_header_cr_free (fn d : str) :
  CR ∉ fn -> CR ∉ d -> CR ∉ render_header fn d.
Proof.
  intros Hfn Hd. unfold render_header.
  rewrite !not_elem_of_app. repeat split; try done;
    apply not_elem_of_existsb; vm_compute; reflexivity.
Qed.




(** X7. After a call that has returned [True], reading the file again
    gives exactly the header followed by the text that the call had read,
    provided the base name and the description contain no carriage return:
    what the call writes is what the next run reads. *)
Theorem reread_after_annotation (filepath description : str) (w w' : world) :
  add_copyright_to_file filepath description w = (Returns true, w') ->
  CR ∉ basename filepath ->
  CR ∉ description ->
  exists content,
    fst (open_read filepath w) = Returns content /\
    has_copyright content = false /\
    fst (open_read filepath w')
      = Returns (render_header (basename filepath) description ++ content).
Proof.
  intros Hcall Hfn Hd.
  apply add_copyright_true_inv in Hcall
    as (f & raw & Hf & Hr & Hp & Hw & Hm & He & ->).
  exists (universal_newlines raw). rewrite !open_read_result. cbn [fst].
  split; [unfold read_result; by rewrite Hf, Hr, Hp|]. split; [done|].
  cbn [verdict_world w_fs verdict_fs]. rewrite lookup_insert_eq.
  unfold read_result. cbn [set_payload f_read_error].
  fold (set_payload f (render_header (basename filepath) description
                       ++ universal_newlines raw)).
  rewrite Hr, f_payload_set_payload by done. f_equal.
  rewrite universal_newlines_no_cr_app by (by apply render_header_cr_free).
  f_equal. apply universal_newlines_no_cr, universal_newlines_cr_free.
Qed.

Lemma reread_after_annotation_witness :
  exists content,
    fst (open_read (lit "admin/src/crlf.ts") sample_world) = Returns content /\
    has_copyright content = false /\
    fst (open_read (lit "admin/src/crlf.ts")
           (snd (add_copyright_to_file (lit "admin/src/crlf.ts") (lit "d") sample_world)))
      = Returns (render_header (basename (lit "admin/src/crlf.ts")) (lit "d") ++ content).
Proof.
  apply (reread_after_annotation
           (lit "admin/src/crlf.ts") (lit "d") sample_world
           (snd (add_copyright_to_file (lit "admin/src/crlf.ts") (lit "d") sample_world)));
    try (vm_compute; reflexivity);
    apply not_elem_of_existsb; vm_compute; reflexivity.
Defined.



(** * Further properties of the entry point *)

Lemma main_group_frame (directory : str) (label : string) (extensions : list str)
    (total : nat) (w : world) :
  exists n w' lines evs,
    main_group directory label extensions total w = (Returns (total + n), w') /\
    w_dirs w' = w_dirs w /\
    w_stdout w' = w_stdout w ++ lines /\
    length (List.filter is_added_line lines) = n /\
    w_io w' = w_io w ++ evs /\
    (forall ev, ev ∈ evs -> io_path ev ∈ candidates w directory extensions) /\
    (forall q, q ∉ candidates w directory extensions -> w_fs w' !! q = w_fs w !! q).
Proof.
  unfold main_group. destruct (path_exists directory w) eqn:Hex.
  - unfold bind, print, ret. rewrite process_directory_verdicts.
    set (l1 := lit "📁 处理 " ++ lit label ++ lit " 目录...").
    set (w0 := put_line l1 w).
    assert (Hc : candidates w0 directory extensions = candidates w directory extensions)
      by (by apply candidates_same_dirs).
    rewrite Hc.
    set (ps := candidates w directory extensions).
    set (d := description_of label).
    destruct (verdicts_frame ps d w0) as (Hdirs & Hfs & _ & (evs & Hio & _ & Hpaths) & _).
    destruct (verdicts_stdout ps d w0) as (lines & Hout & _ & Hadded).
    set (n := count_added (verdicts ps d w0).1) in *.
    set (l2 := lit "   完成 " ++ str_of_nat n ++ lit " 个文件" ++ [LF]).
    exists n, (put_line l2 (verdicts ps d w0).2), (l1 :: lines ++ [l2]), evs.
    split; [reflexivity|]. cbn [put_line w_fs w_dirs w_stdout w_io].
    split; [done|]. split.
    { rewrite Hout. unfold w0. cbn [put_line w_stdout].
      by rewrite <- !app_assoc. }
    split.
    { assert (H1 : is_added_line l1 = false) by (vm_compute; reflexivity).
      assert (H2 : is_added_line l2 = false) by (vm_compute; reflexivity).
      cbn [List.filter]. rewrite H1, List.filter_app. cbn [List.filter].
      rewrite H2, app_nil_r. done. }
    split; [done|]. split; [done|]. intros q Hq. by rewrite Hfs.
  - exists 0, w, [], []. rewrite Nat.add_0_r, !app_nil_r.
    do 5 (split; [done|]). split; [|done].
    intros ev Hev. by apply not_elem_of_nil in Hev.
Qed.

Ltac frame_main_group n w' lines evs E Hd Ho Hn Hi Hp Hf :=
  match goal with
  | |- context [main_group ?a ?b ?c ?t ?w] =>
      destruct (main_group_frame a b c t w)
        as (n & w' & lines & evs & E & Hd & Ho & Hn & Hi & Hp & Hf);
      rewrite E
  end.

Lemma main_frame (w : world) :
  exists n w' lines evs,
    main w = (Returns tt, w') /\
    w_dirs w' = w_dirs w /\
    w_stdout w' = w_stdout w ++ [START_LINE] ++ lines ++ [total_line n] /\
    length (List.filter is_added_line lines) = n /\
    w_io w' = w_io w ++ evs /\
    (forall ev, ev ∈ evs ->
       exists directory label extensions,
         (directory, label, extensions) ∈ MAIN_GROUPS /\
         io_path ev ∈ candidates w directory extensions) /\
    (forall q,
       (forall directory label extensions,
          (directory, label, extensions) ∈ MAIN_GROUPS ->
          q ∉ candidates w directory extensions) ->
       w_fs w' !! q = w_fs w !! q).
Proof.
  unfold main, main_groups, bind, print.
  set (w0 := put_line _ w).
  frame_main_group n1 w1 lines1 evs1 E1 Hd1 Ho1 Hn1 Hi1 Hp1 Hf1.
  frame_main_group n2 w2 lines2 evs2 E2 Hd2 Ho2 Hn2 Hi2 Hp2 Hf2.
  frame_main_group n3 w3 lines3 evs3 E3 Hd3 Ho3 Hn3 Hi3 Hp3 Hf3.
  assert (Hd0 : w_dirs w0 = w_dirs w) by reflexivity.
  rewrite Hd0 in Hd1. rewrite Hd1 in Hd2. rewrite Hd2 in Hd3.
  rewrite (candidates_same_dirs w w0) in Hp1, Hf1 by done.
  rewrite (candidates_same_dirs w w1) in Hp2, Hf2 by done.
  rewrite (candidates_same_dirs w w2) in Hp3, Hf3 by done.
  exists (0 + n1 + n2 + n3), (put_line (total_line (0 + n1 + n2 + n3)) w3),
         (lines1 ++ lines2 ++ lines3), (evs1 ++ evs2 ++ evs3).
  split; [reflexivity|]. cbn [put_line w_fs w_dirs w_stdout w_io].
  split; [done|]. split.
  { rewrite Ho3, Ho2, Ho1. unfold w0, START_LINE. cbn [put_line w_stdout].
    by rewrite <- !app_assoc. }
  split.
  { rewrite !List.filter_app, !length_app. lia. }
  split.
  { rewrite Hi3, Hi2, Hi1. unfold w0. cbn [put_line w_io]. by rewrite <- !app_assoc. }
  split.
  - intros ev Hev. unfold MAIN_GROUPS.
    apply elem_of_app in Hev as [Hev|Hev].
    { eexists _, _, _. split; [apply list_elem_of_here | by apply Hp1]. }
    apply elem_of_app in Hev as [Hev|Hev].
    { eexists _, _, _.
      split; [apply list_elem_of_further, list_elem_of_here | by apply Hp2]. }
    eexists _, _, _.
    split; [do 2 apply list_elem_of_further; apply list_elem_of_here | by apply Hp3].
  - intros q Hq. rewrite Hf3, Hf2, Hf1; [done | | |].
    + eapply Hq. apply list_elem_of_here.
    + eapply Hq. apply list_elem_of_further, list_elem_of_here.
    + eapply Hq. do 2 apply list_elem_of_further. apply list_elem_of_here.
Qed.

(** X9. When [main] comes to its end, it has printed the start line first
    and the total line last, and the total it reports is the number of
    added-header lines printed in between: the sum of the three counts is
    the number of files reported as annotated. *)
Theorem main_total_is_lines_added (w w' : world) :
  main w = (Returns tt, w') ->
  exists n lines,
    w_stdout w' = w_stdout w ++ [START_LINE] ++ lines ++ [total_line n] /\
    n = length (List.filter is_added_line lines).
Proof.
  intros Hmain.
  destruct (main_frame w) as (n & w1 & lines & evs & Hrun & _ & Hout & Hn & _).
  rewrite Hmain in Hrun. injection Hrun as <-. by exists n, lines.
Qed.

Lemma main_total_is_lines_added_witness :
  exists n lines,
    w_stdout (snd (main sample_world))
      = w_stdout sample_world ++ [START_LINE] ++ lines ++ [total_line n] /\
    n = length (List.filter is_added_line lines).
Proof.
  apply (main_total_is_lines_added sample_world (snd (main sample_world))).
  vm_compute. reflexivity.
Defined.

(** X10. [main] touches nothing outside the candidates of its three
    groups: a path that is a candidate of none of them is never opened and
    the file there is left as it is; the directory listings do not change. *)
Theorem main_touches_only_candidates (w : world) (q : str) :
  (forall directory label extensions,
     (directory, label, extensions) ∈ MAIN_GROUPS ->
     q ∉ candidates w directory extensions) ->
  exists w' evs,
    main w = (Returns tt, w') /\
    w_fs w' !! q = w_fs w !! q /\
    w_dirs w' = w_dirs w /\
    w_io w' = w_io w ++ evs /\
    forall ev, ev ∈ evs -> io_path ev <> q.
Proof.
  intros Hq.
  destruct (main_frame w) as (n & w' & lines & evs & Hrun & Hd & _ & _ & Hio & Hp & Hf).
  exists w', evs. split; [done|]. split; [by apply Hf|]. split; [done|]. split; [done|].
  intros ev Hev <-. destruct (Hp ev Hev) as (directory & label & extensions & Hg & Hin).
  by apply (Hq directory label extensions Hg).
Qed.

Lemma main_touches_only_candidates_witness :
  exists w' evs,
    main sample_world = (Returns tt, w') /\
    w_fs w' !! lit "admin/src/notes.md" = w_fs sample_world !! lit "admin/src/notes.md" /\
    w_dirs w' = w_dirs sample_world /\
    w_io w' = w_io sample_world ++ evs /\
    forall ev, ev ∈ evs -> io_path ev <> lit "admin/src/notes.md".
Proof.
  apply (main_touches_only_candidates sample_world (lit "admin/src/notes.md")).
  intros directory label extensions Hg. unfold MAIN_GROUPS in Hg.
  apply elem_of_cons in Hg as [[= -> -> ->]|Hg];
    [apply (bool_decide_unpack _); vm_compute; exact I|].
  apply elem_of_cons in Hg as [[= -> -> ->]|Hg];
    [apply (bool_decide_unpack _); vm_compute; exact I|].
  apply elem_of_cons in Hg as [[= -> -> ->]|Hg];
    [apply (bool_decide_unpack _); vm_compute; exact I|].
  by apply not_elem_of_nil in Hg.
Defined.

(** X11. When none of the three directories exists, [main] prints the
    start line and the total line for 0 and does nothing else: no file is
    opened or changed. *)
Theorem main_without_directories (w : world) :
  path_exists (lit "admin/src") w = false ->
  path_exists (lit "frontend/src") w = false ->
  path_exists (lit "backend/src") w = false ->
  main w = (Returns tt, put_line (total_line 0) (put_line START_LINE w)).
Proof.
  intros H1 H2 H3.
  unfold main, main_groups, bind, print, main_group, ret.
  assert (Hsame : forall dir line w0, path_exists dir (put_line line w0) = path_exists dir w0)
    by reflexivity.
  rewrite Hsame, H1. cbv beta iota.
  rewrite Hsame, H2. cbv beta iota.
  rewrite Hsame, H3. unfold total_line, START_LINE. reflexivity.
Qed.

Lemma main_without_directories_witness :
  main (mkWorld ∅ ∅ [] [])
  = (Returns tt, put_line (total_line 0) (put_line START_LINE (mkWorld ∅ ∅ [] []))).
Proof.
  apply (main_without_directories (mkWorld ∅ ∅ [] [])); vm_compute; reflexivity.
Defined.

(** * The walker hands no path twice *)

Lemma path_of_snoc (top : str) (ds : list str) (file : str) :
  path_of top (ds ++ [file]) = join (path_of top ds) file.
Proof. revert top. induction ds as [|d ds IH]; intros top; [done | apply IH]. Qed.

Lemma os_walk_rel (keep : str -> bool) (t : dirtree) (top : str) :
  os_walk keep top t = map (fun x => (path_of top x.1, x.2)) (rel_walk keep t).
Proof.
  revert top. induction t as [files subdirs IH] using dirtree_ind. intros top.
  cbn [os_walk rel_walk map path_of fst snd]. f_equal.
  rewrite concat_map, map_map. f_equal. apply map_ext_in.
  intros [d sub] Hin. destruct (keep d); [|done].
  rewrite Forall_forall in IH. rewrite (IH (d, sub)) by (by apply list_elem_of_In).
  by rewrite map_map.
Qed.

Lemma candidates_of_rel (extensions : list str) (top : str) (rw : list (list str * list str)) :
  candidates_of extensions (map (fun x => (path_of top x.1, x.2)) rw)
  = map (path_of top) (rel_candidates extensions rw).
Proof.
  induction rw as [|[ds files] rw IH]; [done|].
  cbn [map candidates_of rel_candidates flat_map fst snd].
  fold (candidates_of extensions (map (fun x => (path_of top x.1, x.2)) rw)).
  fold (rel_candidates extensions rw).
  rewrite IH, map_app, map_map. f_equal. apply map_ext. intros file.
  by rewrite path_of_snoc.
Qed.

Lemma rel_walk_located (keep : str -> bool) (t : dirtree) (ds files : list str) :
  (ds, files) ∈ rel_walk keep t -> located t ds files.
Proof.
  revert ds. induction t as [fs subdirs IH] using dirtree_ind. intros ds Hin.
  cbn [rel_walk] in Hin. apply elem_of_cons in Hin as [[= -> ->]|Hin]; [constructor|].
  apply list_elem_of_In, in_concat in Hin as (l & Hl & Hin).
  apply in_map_iff in Hl as ([d sub] & <- & Hentry).
  destruct (keep d); [|by destruct Hin].
  apply in_map_iff in Hin as ([ds' files'] & [= <- <-] & Hin).
  apply list_elem_of_In in Hentry. rewrite Forall_forall in IH.
  econstructor; [done|]. apply (IH (d, sub) Hentry). by apply list_elem_of_In.
Qed.

Lemma elem_of_rel_candidates (extensions : list str) (rw : list (list str * list str))
    (x : list str) :
  x ∈ rel_candidates extensions rw <->
  exists ds files file,
    (ds, files) ∈ rw /\ file ∈ files /\ accepted extensions file = true /\ x = ds ++ [file].
Proof.
  unfold rel_candidates. rewrite list_elem_of_In, in_flat_map. split.
  - intros ([ds files] & Hrw & Hx). apply in_map_iff in Hx as (file & <- & Hfile).
    apply List.filter_In in Hfile as [Hfile Hacc].
    exists ds, files, file. by rewrite !list_elem_of_In.
  - intros (ds & files & file & Hrw & Hfile & Hacc & ->).
    exists (ds, files). split; [by apply list_elem_of_In|].
    apply in_map_iff. exists file. split; [done|].
    apply List.filter_In. split; [by apply list_elem_of_In | done].
Qed.

Lemma rel_candidates_valid (extensions : list str) (keep : str -> bool) (t : dirtree)
    (x : list str) :
  wf_tree t = true -> x ∈ rel_candidates extensions (rel_walk keep t) ->
  forallb valid_name x = true /\ x <> [].
Proof.
  intros Hwf Hx. apply elem_of_rel_candidates in Hx
    as (ds & files & file & Hrw & Hfile & _ & ->).
  apply rel_walk_located in Hrw. destruct (located_valid t ds files Hwf Hrw) as [Hds Hfs].
  rewrite forallb_forall in Hfs. apply list_elem_of_In, Hfs in Hfile.
  split; [|by destruct ds]. rewrite forallb_app. cbn [forallb]. by rewrite Hds, Hfile.
Qed.

Lemma NoDup_list_filter {A} (f : A -> bool) (l : list A) :
  NoDup l -> NoDup (List.filter f l).
Proof.
  induction 1 as [|x l Hx Hl IH]; [constructor|]. cbn [List.filter].
  destruct (f x); [|done]. constructor; [|done].
  intros Hin. apply Hx. apply list_elem_of_In, List.filter_In in Hin as [Hin _].
  by apply list_elem_of_In.
Qed.

Lemma rel_candidates_app (extensions : list str) (a b : list (list str * list str)) :
  rel_candidates extensions (a ++ b)
  = rel_candidates extensions a ++ rel_candidates extensions b.
Proof. unfold rel_candidates. apply flat_map_app. Qed.

Lemma rel_candidates_below (extensions : list str) (d : str) (rw : list (list str * list str)) :
  rel_candidates extensions (map (fun x => (d :: x.1, x.2)) rw)
  = map (cons d) (rel_candidates extensions rw).
Proof.
  induction rw as [|[ds files] rw IH]; [done|].
  cbn [map rel_candidates flat_map fst snd].
  fold (rel_candidates extensions (map (fun x => (d :: x.1, x.2)) rw)).
  fold (rel_candidates extensions rw).
  by rewrite IH, map_app, map_map.
Qed.

Lemma NoDup_map_inj {A B} (f : A -> B) (l : list A) :
  (forall x y, x ∈ l -> y ∈ l -> f x = f y -> x = y) -> NoDup l -> NoDup (map f l).
Proof.
  intros Hinj Hnd. induction Hnd as [|x l Hx Hl IH]; [constructor|].
  cbn [map]. constructor.
  - intros Hin. apply list_elem_of_In, in_map_iff in Hin as (y & Heq & Hy).
    apply list_elem_of_In in Hy. apply Hx.
    rewrite (Hinj x y); [done | apply list_elem_of_here | by apply list_elem_of_further | done].
  - apply IH. intros a b Ha Hb. apply Hinj; by apply list_elem_of_further.
Qed.

Lemma rel_candidates_subdirs_head (extensions : list str) (keep : str -> bool)
    (subdirs : list (str * dirtree)) (x : list str) :
  x ∈ rel_candidates extensions
        (concat (map (fun entry =>
                        match entry with
                        | (d, sub) =>
                            if keep d
                            then map (fun x => (d :: x.1, x.2)) (rel_walk keep sub)
                            else []
                        end) subdirs)) ->
  exists d ds file, d ∈ map fst subdirs /\ x = d :: ds ++ [file].
Proof.
  intros Hx. apply elem_of_rel_candidates in Hx as (ds & files & file & Hrw & _ & _ & ->).
  apply list_elem_of_In, in_concat in Hrw as (l & Hl & Hin).
  apply in_map_iff in Hl as ([d sub] & <- & Hentry).
  destruct (keep d); [|by destruct Hin].
  apply in_map_iff in Hin as ([ds' files'] & [= <- <-] & _).
  exists d, ds', file. split; [|done].
  apply list_elem_of_In, in_map_iff. by exists (d, sub).
Qed.

Lemma rel_candidates_subdirs_NoDup (extensions : list str) (keep : str -> bool)
    (subdirs : list (str * dirtree)) :
  NoDup (map fst subdirs) ->
  Forall (fun entry => NoDup (rel_candidates extensions (rel_walk keep entry.2))) subdirs ->
  NoDup (rel_candidates extensions
           (concat (map (fun entry =>
                           match entry with
                           | (d, sub) =>
                               if keep d
                               then map (fun x => (d :: x.1, x.2)) (rel_walk keep sub)
                               else []
                           end) subdirs))).
Proof.
  induction subdirs as [|[d sub] rest IH]; intros Hnames Hsubs; [constructor|].
  cbn [map fst] in Hnames. apply NoDup_cons in Hnames as [Hd Hnames].
  apply Forall_cons in Hsubs as [Hsub Hsubs]. cbn [snd] in Hsub.
  cbn [map concat]. rewrite rel_candidates_app. apply NoDup_app.
  split; [|split; [|by apply IH]].
  - destruct (keep d); [|constructor]. rewrite rel_candidates_below.
    apply NoDup_map_inj; [|done]. by intros a b _ _ [= ->].
  - intros x Hx1 Hx2.
    apply rel_candidates_subdirs_head in Hx2 as (d' & ds' & file' & Hd' & ->).
    destruct (keep d); [|by apply not_elem_of_nil in Hx1].
    rewrite rel_candidates_below in Hx1.
    apply list_elem_of_In, in_map_iff in Hx1 as (tl & [= -> _] & _). done.
Qed.

Lemma rel_candidates_NoDup (extensions : list str) (keep : str -> bool) (t : dirtree) :
  unique_names t = true -> NoDup (rel_candidates extensions (rel_walk keep t)).
Proof.
  induction t as [files subdirs IH] using dirtree_ind. intros Huniq.
  cbn [unique_names] in Huniq. apply andb_true_iff in Huniq as [Huniq Hsubs].
  apply andb_true_iff in Huniq as [Hfiles Hnames].
  apply bool_decide_eq_true in Hfiles. apply bool_decide_eq_true in Hnames.
  cbn [rel_walk].
  change (rel_candidates extensions (([], files) :: ?r))
    with (map (fun file => [] ++ [file]) (List.filter (accepted extensions) files)
          ++ rel_candidates extensions r).
  apply NoDup_app. split; [|split].
  - apply NoDup_map_inj; [by intros a b _ _ [= ->] | by apply NoDup_list_filter].
  - intros x Hx1 Hx2.
    apply rel_candidates_subdirs_head in Hx2 as (d & ds & file & _ & ->).
    apply list_elem_of_In, in_map_iff in Hx1 as (f & Heq & _).
    cbn [app] in Heq. injection Heq as _ Heq. by destruct ds.
  - apply rel_candidates_subdirs_NoDup; [done|].
    rewrite Forall_forall in IH |- *. intros [d sub] Hin. cbn [snd].
    apply (IH (d, sub) Hin). rewrite forallb_forall in Hsubs.
    by apply (Hsubs (d, sub)), list_elem_of_In.
Qed.

(** X12. In a tree whose names are valid and in which no directory lists
    a name twice, the walker hands no path twice to the file processor: the
    candidates of [process_directory] are pairwise distinct. *)
Theorem candidates_are_distinct
    (w : world) (directory : str) (extensions : list str) (t : dirtree) :
  w_dirs w !! directory = Some t ->
  wf_tree t = true ->
  unique_names t = true ->
  NoDup (candidates w directory extensions).
Proof.
  intros Ht Hwf Huniq. unfold candidates, walk_of. rewrite Ht.
  rewrite os_walk_rel, candidates_of_rel.
  apply NoDup_map_inj; [|by apply rel_candidates_NoDup].
  intros x y Hx Hy Heq.
  destruct (rel_candidates_valid extensions not_excluded t x Hwf Hx) as [Hvx Hnx].
  destruct (rel_candidates_valid extensions not_excluded t y Hwf Hy) as [Hvy Hny].
  by apply (path_of_inj directory).
Qed.

Lemma candidates_are_distinct_witness :
  NoDup (candidates sample_world (lit "admin/src") [lit ".tsx"; lit ".ts"; lit ".css"]).
Proof.
  apply (candidates_are_distinct sample_world (lit "admin/src")
           [lit ".tsx"; lit ".ts"; lit ".css"] sample_tree);
    vm_compute; reflexivity.
Defined.
